(** * CAP-ROC: the capacity calculator of [src/cap_roc_tool.py]

    A shallow embedding of the numeric core of the tool ([poisson_cdf],
    [poisson_overload_prob], [lambda_max_poisson], [cap_roc]) and the proofs
    of its specification.

    Modelling conventions.
    - A Python [float] that takes part in arithmetic is a real number of
      [R]: arithmetic is exact, rounding error is not modelled.  The literal
      [float("nan")] is kept apart as the constructor [NaN] of [pyfloat].
    - [math.exp] is [exp] of the real-number library.
    - Where rounding and underflow decide, the module [Float64] at the end
      embeds [poisson_cdf] and [poisson_overload_prob] on binary64 floats,
      with [math.exp] as a parameter.
    - An exception is a value of [exn]; a call that may raise returns a
      [result].
    - Python does not enforce the annotation [C: int]: an argument so
      annotated is a [pynum], an [int] or a [float]. *)

From Stdlib Require Import Reals Lra Lia ZArith List String Bool.
Import ListNotations.
Local Open Scope string_scope.
Local Open Scope R_scope.

(** ** Exceptions and results *)

Inductive exn : Type :=
| ValueError (msg : string)
| TypeError (msg : string).

Inductive result (X : Type) : Type :=
| Ok (x : X)
| Raise (e : exn).

Arguments Ok {X} x.
Arguments Raise {X} e.

Definition bind {X Y : Type} (c : result X) (k : X -> result Y) : result Y :=
  match c with
  | Ok x => k x
  | Raise e => Raise e
  end.

Notation "x <- c ;; k" := (bind c (fun x => k))
  (at level 61, c at next level, right associativity).

Definition returns {X : Type} (c : result X) (P : X -> Prop) : Prop :=
  exists x, c = Ok x /\ P x.

Definition raises_ValueError {X : Type} (c : result X) : Prop :=
  exists msg, c = Raise (ValueError msg).

(** ** Numbers *)

(** The comparisons [x < y] and [x <= y] of two floats, as booleans. *)
Definition Rltb (x y : R) : bool := if Rlt_dec x y then true else false.
Definition Rleb (x y : R) : bool := if Rle_dec x y then true else false.

(** A float result field: a number, or [float("nan")]. *)
Inductive pyfloat : Type :=
| Fin (x : R)
| NaN.

(** An argument annotated [int]. *)
Inductive pynum : Type :=
| PyInt (n : Z)
| PyFloat (x : R).

(** [k < 0] *)
Definition num_ltb0 (k : pynum) : bool :=
  match k with
  | PyInt n => (n <? 0)%Z
  | PyFloat x => Rltb x 0
  end.

(** [C + 1.0] *)
Definition num_add1 (C : pynum) : R :=
  match C with
  | PyInt n => IZR n + 1
  | PyFloat x => x + 1
  end.

(** [range(lo, hi)] on integers. *)
Definition range (lo hi : Z) : list Z :=
  map (fun j => (lo + Z.of_nat j)%Z) (seq 0 (Z.to_nat (hi - lo))).

(** [range(1, k + 1)]: [range] accepts integers only. *)
Definition range_1_to (k : pynum) : result (list Z) :=
  match k with
  | PyInt n => Ok (range 1 (n + 1))
  | PyFloat _ =>
      Raise (TypeError "'float' object cannot be interpreted as an integer")
  end.

(** The built-in [round] with one argument: the nearest integer, a tie going
    to the even neighbour.  [int(round(C))] is then this integer. *)
Definition py_round (x : R) : Z :=
  let f := Int_part x in
  let d := x - IZR f in
  if Rltb d 0.5 then f
  else if Rltb 0.5 d then (f + 1)%Z
  else if Z.even f then f else (f + 1)%Z.

(** ** PoissonGate *)

(** The body of the loop of [poisson_cdf], on the pair [(term, total)]. *)
Definition cdf_step (lam : R) (st : R * R) (i : Z) : R * R :=
  let term := fst st * (lam / IZR i) in
  (term, snd st + term).

(** The final clamp of [poisson_cdf]. *)
Definition clamp (total : R) : R :=
  if Rltb total 0 then 0
  else if Rltb 1 total then 1
  else total.

Definition poisson_cdf (k : pynum) (lam : R) : result R :=
  if num_ltb0 k then Ok 0
  else if Rltb lam 0 then Raise (ValueError "lam must be >= 0")
  else
    let term := exp (- lam) in
    let total := term in
    idx <- range_1_to k ;;
    Ok (clamp (snd (fold_left (cdf_step lam) idx (term, total)))).

Definition poisson_overload_prob (lam : R) (C : pynum) : result R :=
  c <- poisson_cdf C lam ;;
  Ok (1 - c).

(** The default of the parameter [tol]. *)
Definition default_tol : R := 1e-8.

(** The bracketing loop: at most [n] further rounds. *)
Fixpoint expand_hi (delta : R) (C : pynum) (n : nat) (hi : R) : result R :=
  match n with
  | O => Ok hi
  | S n' =>
      q <- poisson_overload_prob hi C ;;
      if Rltb delta q then Ok hi
      else
        let hi := hi * 2 in
        if Rltb 1e6 hi then Ok hi else expand_hi delta C n' hi
  end.

(** The bisection loop: at most [n] further rounds. *)
Fixpoint bisect (delta : R) (C : pynum) (tol : R) (n : nat) (lo hi : R)
  : result R :=
  match n with
  | O => Ok lo
  | S n' =>
      let mid := 0.5 * (lo + hi) in
      q <- poisson_overload_prob mid C ;;
      let hi := if Rltb delta q then mid else hi in
      let lo := if Rltb delta q then lo else mid in
      if Rltb (hi - lo) (tol * (1 + lo)) then Ok lo
      else bisect delta C tol n' lo hi
  end.

Definition lambda_max_poisson (delta : R) (C : pynum) (tol : R) : result R :=
  if negb (Rltb 0 delta && Rltb delta 1)
  then Raise (ValueError "delta must be in (0,1)")
  else if num_ltb0 C then Raise (ValueError "C must be >= 0")
  else
    let lo := 0 in
    let hi := Rmax 1 (num_add1 C) in
    hi <- expand_hi delta C 80 hi ;;
    bisect delta C tol 80 lo hi.

(** ** RateModel and the orchestration *)

Record delta_result : Type := {
  delta : R;
  C_int : Z;
  lam_max : R;
  overload_prob_at_A : R;
  passed_delta : bool;
  fpr_max_delta_raw : pyfloat
}.

Record cap_result : Type := {
  A : R;
  passed_mean : bool;
  fpr_max_mean_raw : pyfloat;
  tpr_max_mean_raw : pyfloat;
  C_required : R;
  delta_out : option delta_result
}.

(** The loop over [[("TPR", tpr), ("FPR", fpr)]]. *)
Fixpoint check_unit_interval (l : list (string * R)) : result unit :=
  match l with
  | [] => Ok tt
  | (name, v) :: l' =>
      if negb (Rleb 0 v && Rleb v 1)
      then Raise (ValueError (name ++ " must be in [0,1]"))
      else check_unit_interval l'
  end.

(** The block under [if delta is not None]. *)
Definition delta_gate (Rv p tpr C A : R) (delta : R) : result delta_result :=
  let C_int := py_round C in
  lam_max <- lambda_max_poisson delta (PyInt C_int) default_tol ;;
  overload_at_A <- poisson_overload_prob A (PyInt C_int) ;;
  let passed_delta := Rleb A lam_max in
  let fpr_max_delta :=
    if Rltb p 1 then Fin ((lam_max / Rv - p * tpr) / (1 - p)) else NaN in
  Ok {| delta := delta;
        C_int := C_int;
        lam_max := lam_max;
        overload_prob_at_A := overload_at_A;
        passed_delta := passed_delta;
        fpr_max_delta_raw := fpr_max_delta |}.

(** [cap_roc]; its first parameter, [R] in the source, is [Rv] here. *)
Definition cap_roc (Rv p tpr fpr C : R) (delta : option R)
  : result cap_result :=
  if Rleb Rv 0 then Raise (ValueError "R must be > 0")
  else if negb (Rleb 0 p && Rleb p 1)
  then Raise (ValueError "p must be in [0,1]")
  else
    _ <- check_unit_interval [("TPR", tpr); ("FPR", fpr)] ;;
    if Rltb C 0 then Raise (ValueError "C must be >= 0")
    else
      let A := Rv * (p * tpr + (1 - p) * fpr) in
      let passed_mean := Rleb A C in
      let fpr_max_mean :=
        if Rltb p 1 then Fin ((C / Rv - p * tpr) / (1 - p)) else NaN in
      let tpr_max_mean :=
        if Rltb 0 p then Fin ((C / Rv - (1 - p) * fpr) / p) else NaN in
      delta_out <-
        match delta with
        | None => Ok None
        | Some delta =>
            d <- delta_gate Rv p tpr C A delta ;;
            Ok (Some d)
        end ;;
      Ok {| A := A;
            passed_mean := passed_mean;
            fpr_max_mean_raw := fpr_max_mean;
            tpr_max_mean_raw := tpr_max_mean;
            C_required := A;
            delta_out := delta_out |}.

(** * Proofs *)

(** ** Comparisons *)

Lemma Rltb_true (x y : R) : Rltb x y = true <-> x < y.
Proof.
  unfold Rltb. destruct (Rlt_dec x y); split; intros; auto; discriminate.
Qed.

Lemma Rltb_false (x y : R) : Rltb x y = false <-> y <= x.
Proof.
  unfold Rltb. destruct (Rlt_dec x y); split; intros; auto; try discriminate; lra.
Qed.

Lemma Rleb_true (x y : R) : Rleb x y = true <-> x <= y.
Proof.
  unfold Rleb. destruct (Rle_dec x y); split; intros; auto; discriminate.
Qed.

Lemma Rleb_false (x y : R) : Rleb x y = false <-> y < x.
Proof.
  unfold Rleb. destruct (Rle_dec x y); split; intros; auto; try discriminate; lra.
Qed.

(** Decide one comparison of the goal from the arithmetic context. *)
Ltac by_cases_R x y :=
  let H := fresh "Hlt" in
  destruct (Rlt_dec x y) as [H | H];
  [ pose proof (proj2 (Rltb_true x y) H)
  | pose proof (proj2 (Rltb_false x y) (Rnot_lt_le _ _ H)) ].

Ltac set_ltb x y :=
  first [ rewrite (proj2 (Rltb_true x y)) by lra
        | rewrite (proj2 (Rltb_false x y)) by lra ].

Ltac set_leb x y :=
  first [ rewrite (proj2 (Rleb_true x y)) by lra
        | rewrite (proj2 (Rleb_false x y)) by lra ].

(** The test [not (lo <= v <= hi)] and its open-interval sibling. *)
Lemma in_closed_unit (v : R) : Rleb 0 v && Rleb v 1 = true <-> 0 <= v <= 1.
Proof.
  rewrite andb_true_iff, !Rleb_true. tauto.
Qed.

Lemma in_open_unit (v : R) : Rltb 0 v && Rltb v 1 = true <-> 0 < v < 1.
Proof.
  rewrite andb_true_iff, !Rltb_true. tauto.
Qed.

(** ** [clamp] *)

Lemma clamp_bounds (t : R) : 0 <= clamp t <= 1.
Proof.
  unfold clamp. by_cases_R t 0; rewrite H; [lra|].
  by_cases_R 1 t; rewrite H0; lra.
Qed.

Lemma clamp_id (t : R) : 0 <= t <= 1 -> clamp t = t.
Proof.
  intros Ht. unfold clamp. set_ltb t 0. set_ltb 1 t. reflexivity.
Qed.

Lemma clamp_mono (s t : R) : s <= t -> clamp s <= clamp t.
Proof.
  intros Hst. unfold clamp.
  by_cases_R s 0; by_cases_R t 0; by_cases_R 1 s; by_cases_R 1 t;
    repeat match goal with H : Rltb _ _ = _ |- _ => rewrite H; clear H end;
    lra.
Qed.

(** ** [range] *)

Lemma range_nil (lo hi : Z) : (hi <= lo)%Z -> range lo hi = [].
Proof.
  intros H. unfold range. replace (Z.to_nat (hi - lo)) with O by lia.
  reflexivity.
Qed.

Lemma range_snoc (lo hi : Z) :
  (lo <= hi)%Z -> range lo (hi + 1) = (range lo hi ++ [hi])%list.
Proof.
  intros H. unfold range.
  replace (Z.to_nat (hi + 1 - lo)) with (S (Z.to_nat (hi - lo))) by lia.
  rewrite seq_S, map_app. simpl. do 2 f_equal. lia.
Qed.

(** ** [poisson_cdf] on its domain *)

(** The sum the loop of [poisson_cdf] leaves in [total], before the clamp. *)
Definition cdf_total (n : Z) (lam : R) : R :=
  snd (fold_left (cdf_step lam) (range 1 (n + 1)) (exp (- lam), exp (- lam))).

Lemma poisson_cdf_int (n : Z) (lam : R) :
  (0 <= n)%Z -> 0 <= lam ->
  poisson_cdf (PyInt n) lam = Ok (clamp (cdf_total n lam)).
Proof.
  intros Hn Hlam. unfold poisson_cdf. simpl.
  replace (n <? 0)%Z with false by (symmetry; apply Z.ltb_ge; lia).
  set_ltb lam 0. reflexivity.
Qed.

Lemma poisson_cdf_negative (n : Z) (lam : R) :
  (n < 0)%Z -> poisson_cdf (PyInt n) lam = Ok 0.
Proof.
  intros Hn. unfold poisson_cdf. simpl.
  replace (n <? 0)%Z with true by (symmetry; apply Z.ltb_lt; lia).
  reflexivity.
Qed.

Lemma poisson_overload_int (n : Z) (lam : R) :
  (0 <= n)%Z -> 0 <= lam ->
  poisson_overload_prob lam (PyInt n) = Ok (1 - clamp (cdf_total n lam)).
Proof.
  intros Hn Hlam. unfold poisson_overload_prob.
  rewrite poisson_cdf_int by assumption. reflexivity.
Qed.


(** At [lam = 0] every term after the first is [0]. *)
Lemma fold_cdf_step_0 (l : list Z) (term total : R) :
  snd (fold_left (cdf_step 0) l (term, total)) = total.
Proof.
  revert term total. induction l as [| i l IH]; intros term total.
  - reflexivity.
  - simpl. unfold cdf_step at 2. simpl. rewrite IH.
    unfold Rdiv. ring.
Qed.

Lemma cdf_total_0 (n : Z) : cdf_total n 0 = 1.
Proof.
  unfold cdf_total. rewrite fold_cdf_step_0.
  rewrite Ropp_0. apply exp_0.
Qed.

Lemma poisson_overload_at_0 (n : Z) :
  (0 <= n)%Z -> poisson_overload_prob 0 (PyInt n) = Ok 0.
Proof.
  intros Hn. rewrite poisson_overload_int by (assumption || lra).
  rewrite cdf_total_0, clamp_id by lra. f_equal. ring.
Qed.

(** ** The two loops of [lambda_max_poisson] *)

Lemma bind_Ok {X Y : Type} (x : X) (k : X -> result Y) : bind (Ok x) k = k x.
Proof. reflexivity. Qed.

Lemma bind_Raise {X Y : Type} (e : exn) (k : X -> result Y) :
  bind (Raise e) k = Raise e.
Proof. reflexivity. Qed.

Lemma expand_hi_S (delta : R) (C : pynum) (n : nat) (hi : R) :
  expand_hi delta C (S n) hi =
  (q <- poisson_overload_prob hi C ;;
   if Rltb delta q then Ok hi
   else if Rltb 1e6 (hi * 2) then Ok (hi * 2)
        else expand_hi delta C n (hi * 2)).
Proof. reflexivity. Qed.

Lemma bisect_S (delta : R) (C : pynum) (tol : R) (n : nat) (lo hi : R) :
  bisect delta C tol (S n) lo hi =
  (q <- poisson_overload_prob (0.5 * (lo + hi)) C ;;
   if Rltb ((if Rltb delta q then 0.5 * (lo + hi) else hi)
            - (if Rltb delta q then lo else 0.5 * (lo + hi)))
           (tol * (1 + (if Rltb delta q then lo else 0.5 * (lo + hi))))
   then Ok (if Rltb delta q then lo else 0.5 * (lo + hi))
   else bisect delta C tol n
          (if Rltb delta q then lo else 0.5 * (lo + hi))
          (if Rltb delta q then 0.5 * (lo + hi) else hi)).
Proof. reflexivity. Qed.

Section Loops.

Variable delta : R.
Variable n : Z.
Variable tol : R.
Hypothesis n_nonneg : (0 <= n)%Z.

(** [lam] was checked safe: its overload probability is at most [delta]. *)
Definition safe (lam : R) : Prop :=
  returns (poisson_overload_prob lam (PyInt n)) (fun q => q <= delta).

Lemma expand_hi_returns (fuel : nat) (hi : R) :
  0 < hi -> returns (expand_hi delta (PyInt n) fuel hi) (fun hi' => hi <= hi').
Proof.
  revert hi. induction fuel as [| fuel IH]; intros hi Hhi.
  - exists hi. split; [reflexivity | lra].
  - simpl. rewrite poisson_overload_int by (assumption || lra). simpl.
    destruct (Rltb delta _).
    + exists hi. split; [reflexivity | lra].
    + destruct (Rltb 1e6 (hi * 2)).
      * exists (hi * 2). split; [reflexivity | lra].
      * destruct (IH (hi * 2)) as (hi' & E & Hle); [lra|].
        exists hi'. split; [exact E | lra].
Qed.

Lemma bisect_safe (fuel : nat) (lo hi : R) :
  0 <= lo -> 0 <= hi -> safe lo ->
  returns (bisect delta (PyInt n) tol fuel lo hi) (fun lam => 0 <= lam /\ safe lam).
Proof.
  revert lo hi. induction fuel as [| fuel IH]; intros lo hi Hlo Hhi Hsafe.
  - exists lo. auto.
  - simpl.
    assert (Hmid : 0 <= 0.5 * (lo + hi)) by lra.
    rewrite poisson_overload_int by assumption. simpl.
    set (mid := 0.5 * (lo + hi)) in *.
    set (q := 1 - clamp (cdf_total n mid)).
    assert (Hq : poisson_overload_prob mid (PyInt n) = Ok q)
      by (apply poisson_overload_int; assumption).
    by_cases_R delta q; rewrite H.
    + destruct (Rltb (mid - lo) (tol * (1 + lo))).
      * exists lo. auto.
      * apply IH; assumption.
    + assert (Hsafe' : safe mid) by (exists q; split; [exact Hq | lra]).
      destruct (Rltb (hi - mid) (tol * (1 + mid))).
      * exists mid. auto.
      * apply IH; assumption.
Qed.

End Loops.

(** ** [lambda_max_poisson] *)

(** [C < 0], as a proposition. *)
Definition num_negative (C : pynum) : Prop :=
  match C with
  | PyInt n => (n < 0)%Z
  | PyFloat x => x < 0
  end.

Lemma num_ltb0_true (C : pynum) : num_ltb0 C = true <-> num_negative C.
Proof.
  destruct C as [n | x]; simpl; [apply Z.ltb_lt | apply Rltb_true].
Qed.

Lemma num_ltb0_false (C : pynum) : num_ltb0 C = false <-> ~ num_negative C.
Proof.
  rewrite <- num_ltb0_true. destruct (num_ltb0 C); split; intros; auto;
    try discriminate. exfalso; auto.
Qed.

Lemma lambda_max_poisson_body (delta : R) (C : pynum) (tol : R) :
  0 < delta < 1 -> ~ num_negative C ->
  lambda_max_poisson delta C tol =
  (hi <- expand_hi delta C 80 (Rmax 1 (num_add1 C)) ;;
   bisect delta C tol 80 0 hi).
Proof.
  intros Hd HC. unfold lambda_max_poisson.
  rewrite (proj2 (in_open_unit delta) Hd).
  rewrite (proj2 (num_ltb0_false C) HC). reflexivity.
Qed.

Lemma lambda_max_poisson_bad_delta (delta : R) (C : pynum) (tol : R) :
  ~ 0 < delta < 1 ->
  lambda_max_poisson delta C tol = Raise (ValueError "delta must be in (0,1)").
Proof.
  intros Hd. unfold lambda_max_poisson.
  destruct (Rltb 0 delta && Rltb delta 1) eqn:E; [|reflexivity].
  apply in_open_unit in E. contradiction.
Qed.


Lemma lambda_max_poisson_safe (delta : R) (n : Z) (tol : R) :
  0 < delta < 1 -> (0 <= n)%Z ->
  returns (lambda_max_poisson delta (PyInt n) tol)
          (fun lam => 0 <= lam /\ safe delta n lam).
Proof.
  intros Hd Hn.
  rewrite lambda_max_poisson_body by (assumption || (simpl; lia)).
  assert (H1 : 0 < Rmax 1 (num_add1 (PyInt n)))
    by (pose proof (Rmax_l 1 (num_add1 (PyInt n))); lra).
  destruct (expand_hi_returns delta n Hn 80 _ H1) as (hi & E & Hhi).
  rewrite E, bind_Ok.
  apply bisect_safe; try lra; try assumption.
  exists 0. split; [apply poisson_overload_at_0; assumption | lra].
Qed.


(** C1: for every [delta] in (0,1), every integer [C >= 0] and every
    tolerance (the default [1e-8] among them), [lambda_max_poisson] returns a
    rate whose overload probability, as [poisson_overload_prob] computes it,
    is at most [delta]. *)
Theorem lambda_max_within_risk (delta : R) (C : Z) (tol : R) :
  0 < delta < 1 -> (0 <= C)%Z ->
  returns (lambda_max_poisson delta (PyInt C) tol)
          (fun lam =>
             returns (poisson_overload_prob lam (PyInt C))
                     (fun q => q <= delta)).
Proof.
  intros Hd HC.
  destruct (lambda_max_poisson_safe delta C tol Hd HC) as (lam & E & _ & Hs).
  exists lam. split; assumption.
Qed.

Lemma lambda_max_within_risk_witness :
  returns (lambda_max_poisson 0.01 (PyInt 4) default_tol)
          (fun lam =>
             returns (poisson_overload_prob lam (PyInt 4))
                     (fun q => q <= 0.01)).
Proof.
  apply (lambda_max_within_risk 0.01 4 default_tol); [lra | lia].
Defined.

(** C6, as the code has it: [poisson_cdf] raises the [ValueError] for a
    negative [lam] when [k >= 0], and returns exactly [0] for a negative [k],
    whatever [lam] is. *)
Theorem poisson_cdf_guards (k : Z) (lam : R) :
  ((0 <= k)%Z -> lam < 0 ->
   poisson_cdf (PyInt k) lam = Raise (ValueError "lam must be >= 0")) /\
  ((k < 0)%Z -> poisson_cdf (PyInt k) lam = Ok 0).
Proof.
  split.
  - intros Hk Hlam. unfold poisson_cdf. simpl.
    replace (k <? 0)%Z with false by (symmetry; apply Z.ltb_ge; lia).
    set_ltb lam 0. reflexivity.
  - apply poisson_cdf_negative.
Qed.

Lemma poisson_cdf_guards_witness :
  poisson_cdf (PyInt 3) (-1) = Raise (ValueError "lam must be >= 0") /\
  poisson_cdf (PyInt (-1)) 2 = Ok 0.
Proof.
  split.
  - apply (proj1 (poisson_cdf_guards 3 (-1))); [lia | lra].
  - apply (proj2 (poisson_cdf_guards (-1) 2)); lia.
Defined.

(** C6 as stated fails: with [k = -1] and [lam = -1] the test [k < 0] comes
    first and the call returns [0] instead of raising. *)
Lemma poisson_cdf_negative_lam_no_error :
  -1 < 0 /\
  poisson_cdf (PyInt (-1)) (-1) = Ok 0 /\
  ~ raises_ValueError (poisson_cdf (PyInt (-1)) (-1)).
Proof.
  assert (E : poisson_cdf (PyInt (-1)) (-1) = Ok 0)
    by (apply poisson_cdf_negative; lia).
  split; [lra |]. split; [exact E |].
  intros (msg & H). rewrite E in H. discriminate.
Qed.




(** ** [py_round] *)

Lemma Int_part_bounds (x : R) : IZR (Int_part x) <= x < IZR (Int_part x) + 1.
Proof.
  pose proof (base_Int_part x). lra.
Qed.

Lemma Int_part_nonneg (x : R) : 0 <= x -> (0 <= Int_part x)%Z.
Proof.
  intros Hx. pose proof (Int_part_bounds x) as [_ H].
  assert (H1 : IZR (-1) < IZR (Int_part x)) by (simpl; lra).
  apply lt_IZR in H1. lia.
Qed.

Lemma py_round_cases (x : R) :
  py_round x = Int_part x \/ py_round x = (Int_part x + 1)%Z.
Proof.
  unfold py_round.
  destruct (Rltb _ _); [auto |].
  destruct (Rltb _ _); [auto |].
  destruct (Z.even _); auto.
Qed.

Lemma py_round_nonneg (x : R) : 0 <= x -> (0 <= py_round x)%Z.
Proof.
  intros Hx. pose proof (Int_part_nonneg x Hx).
  destruct (py_round_cases x) as [-> | ->]; lia.
Qed.

Lemma py_round_nearest (x : R) : Rabs (x - IZR (py_round x)) <= 0.5.
Proof.
  pose proof (Int_part_bounds x) as Hb. unfold py_round.
  set (f := Int_part x) in *.
  by_cases_R (x - IZR f) 0.5; rewrite H.
  - apply Rabs_le. lra.
  - by_cases_R 0.5 (x - IZR f); rewrite H0.
    + rewrite plus_IZR. apply Rabs_le. lra.
    + destruct (Z.even f); [| rewrite plus_IZR]; apply Rabs_le; lra.
Qed.

Lemma py_round_tie_even (x : R) :
  Rabs (x - IZR (py_round x)) = 0.5 -> Z.even (py_round x) = true.
Proof.
  pose proof (Int_part_bounds x) as Hb. unfold py_round.
  set (f := Int_part x) in *.
  by_cases_R (x - IZR f) 0.5; rewrite H.
  - intros Habs. rewrite Rabs_right in Habs by lra. lra.
  - by_cases_R 0.5 (x - IZR f); rewrite H0.
    + rewrite plus_IZR. intros Habs. rewrite Rabs_left in Habs by lra. lra.
    + intros _. destruct (Z.even f) eqn:Ef; [exact Ef |].
      rewrite Z.even_add, Ef. reflexivity.
Qed.

(** Halfway between [z] and [z + 1], the even one of the two is taken. *)
Lemma py_round_half (z : Z) :
  py_round (IZR z + 0.5) = if Z.even z then z else (z + 1)%Z.
Proof.
  assert (E : Int_part (IZR z + 0.5) = z)
    by (symmetry; apply Int_part_spec; lra).
  unfold py_round. rewrite E.
  set_ltb (IZR z + 0.5 - IZR z) 0.5. set_ltb 0.5 (IZR z + 0.5 - IZR z).
  reflexivity.
Qed.

Lemma py_round_0_5 : py_round 0.5 = 0%Z.
Proof.
  replace 0.5 with (IZR 0 + 0.5) by lra. rewrite py_round_half. reflexivity.
Qed.

Lemma py_round_1_5 : py_round 1.5 = 2%Z.
Proof.
  replace 1.5 with (IZR 1 + 0.5) by lra. rewrite py_round_half. reflexivity.
Qed.

Lemma py_round_2_5 : py_round 2.5 = 2%Z.
Proof.
  replace 2.5 with (IZR 2 + 0.5) by lra. rewrite py_round_half. reflexivity.
Qed.

Lemma py_round_integer (z : Z) : py_round (IZR z) = z.
Proof.
  assert (E : Int_part (IZR z) = z)
    by (symmetry; apply Int_part_spec; lra).
  unfold py_round. rewrite E.
  set_ltb (IZR z - IZR z) 0.5. reflexivity.
Qed.

(** ** [cap_roc] *)

(** The preconditions of [cap_roc] on its five rates. *)
Definition valid_rate_inputs (Rv p tpr fpr C : R) : Prop :=
  0 < Rv /\ 0 <= p <= 1 /\ 0 <= tpr <= 1 /\ 0 <= fpr <= 1 /\ 0 <= C.

(** The precondition on the optional [delta]: absent, or inside (0,1). *)
Definition valid_delta (delta : option R) : Prop :=
  match delta with
  | None => True
  | Some d => 0 < d < 1
  end.

(** The expected alert rate, as [cap_roc] computes it. *)
Definition alert_rate (Rv p tpr fpr : R) : R :=
  Rv * (p * tpr + (1 - p) * fpr).

Lemma alert_rate_nonneg (Rv p tpr fpr C : R) :
  valid_rate_inputs Rv p tpr fpr C -> 0 <= alert_rate Rv p tpr fpr.
Proof.
  intros (HR & Hp & Ht & Hf & _). unfold alert_rate.
  apply Rmult_le_pos; [lra |].
  apply Rplus_le_le_0_compat; apply Rmult_le_pos; lra.
Qed.

Lemma not_in_closed_unit (v : R) :
  negb (Rleb 0 v && Rleb v 1) = true <-> ~ 0 <= v <= 1.
Proof.
  rewrite negb_true_iff, <- not_true_iff_false, in_closed_unit. tauto.
Qed.

Lemma in_closed_unit_pass (v : R) :
  0 <= v <= 1 -> negb (Rleb 0 v && Rleb v 1) = false.
Proof.
  intros H. rewrite (proj2 (in_closed_unit v) H). reflexivity.
Qed.

(** Past the four guards, [cap_roc] is its computing part. *)
Lemma cap_roc_body (Rv p tpr fpr C : R) (delta : option R) :
  valid_rate_inputs Rv p tpr fpr C ->
  cap_roc Rv p tpr fpr C delta =
  (delta_out <-
     match delta with
     | None => Ok None
     | Some delta =>
         d <- delta_gate Rv p tpr C (alert_rate Rv p tpr fpr) delta ;;
         Ok (Some d)
     end ;;
   Ok {| A := alert_rate Rv p tpr fpr;
         passed_mean := Rleb (alert_rate Rv p tpr fpr) C;
         fpr_max_mean_raw :=
           if Rltb p 1 then Fin ((C / Rv - p * tpr) / (1 - p)) else NaN;
         tpr_max_mean_raw :=
           if Rltb 0 p then Fin ((C / Rv - (1 - p) * fpr) / p) else NaN;
         C_required := alert_rate Rv p tpr fpr;
         delta_out := delta_out |}).
Proof.
  intros (HR & Hp & Ht & Hf & HC). unfold cap_roc.
  set_leb Rv 0. rewrite (in_closed_unit_pass p Hp).
  unfold check_unit_interval.
  rewrite (in_closed_unit_pass tpr Ht), (in_closed_unit_pass fpr Hf).
  rewrite bind_Ok. set_ltb C 0. reflexivity.
Qed.

(** With a [delta] inside (0,1) the block of the delta gate returns. *)
Lemma delta_gate_returns (Rv p tpr fpr C dl : R) :
  valid_rate_inputs Rv p tpr fpr C -> 0 < dl < 1 ->
  exists lam q,
    lambda_max_poisson dl (PyInt (py_round C)) default_tol = Ok lam /\
    poisson_overload_prob (alert_rate Rv p tpr fpr) (PyInt (py_round C)) = Ok q /\
    delta_gate Rv p tpr C (alert_rate Rv p tpr fpr) dl =
    Ok {| delta := dl;
          C_int := py_round C;
          lam_max := lam;
          overload_prob_at_A := q;
          passed_delta := Rleb (alert_rate Rv p tpr fpr) lam;
          fpr_max_delta_raw :=
            if Rltb p 1 then Fin ((lam / Rv - p * tpr) / (1 - p)) else NaN |}.
Proof.
  intros Hv Hd.
  assert (HC : (0 <= py_round C)%Z) by (apply py_round_nonneg, Hv).
  destruct (lambda_max_poisson_safe dl (py_round C) default_tol Hd HC)
    as (lam & El & _).
  pose proof (poisson_overload_int (py_round C) _ HC
                (alert_rate_nonneg _ _ _ _ _ Hv)) as Eq.
  eexists lam, _. split; [exact El |]. split; [exact Eq |].
  unfold delta_gate. rewrite El, bind_Ok, Eq, bind_Ok. reflexivity.
Qed.

(** With a [delta] outside (0,1) the delta gate raises, after the rates. *)
Lemma cap_roc_bad_delta (Rv p tpr fpr C dl : R) :
  valid_rate_inputs Rv p tpr fpr C -> ~ 0 < dl < 1 ->
  cap_roc Rv p tpr fpr C (Some dl) =
  Raise (ValueError "delta must be in (0,1)").
Proof.
  intros Hv Hd. rewrite cap_roc_body by assumption.
  unfold delta_gate. rewrite lambda_max_poisson_bad_delta by assumption.
  reflexivity.
Qed.

Lemma cap_roc_returns (Rv p tpr fpr C : R) (delta : option R) :
  valid_rate_inputs Rv p tpr fpr C -> valid_delta delta ->
  exists dout,
    cap_roc Rv p tpr fpr C delta =
    Ok {| A := alert_rate Rv p tpr fpr;
          passed_mean := Rleb (alert_rate Rv p tpr fpr) C;
          fpr_max_mean_raw :=
            if Rltb p 1 then Fin ((C / Rv - p * tpr) / (1 - p)) else NaN;
          tpr_max_mean_raw :=
            if Rltb 0 p then Fin ((C / Rv - (1 - p) * fpr) / p) else NaN;
          C_required := alert_rate Rv p tpr fpr;
          delta_out := dout |} /\
    match delta with
    | None => dout = None
    | Some dl =>
        exists lam q,
          lambda_max_poisson dl (PyInt (py_round C)) default_tol = Ok lam /\
          poisson_overload_prob (alert_rate Rv p tpr fpr)
                                (PyInt (py_round C)) = Ok q /\
          dout =
          Some {| delta := dl;
                  C_int := py_round C;
                  lam_max := lam;
                  overload_prob_at_A := q;
                  passed_delta := Rleb (alert_rate Rv p tpr fpr) lam;
                  fpr_max_delta_raw :=
                    if Rltb p 1
                    then Fin ((lam / Rv - p * tpr) / (1 - p)) else NaN |}
    end.
Proof.
  intros Hv Hd. rewrite cap_roc_body by assumption.
  destruct delta as [dl |].
  - destruct (delta_gate_returns Rv p tpr fpr C dl Hv Hd)
      as (lam & q & El & Eq & Eg).
    rewrite Eg, !bind_Ok. eexists. split; [reflexivity |].
    exists lam, q. auto.
  - rewrite bind_Ok. exists None. auto.
Qed.

(** C2: on valid inputs ([R > 0]; [p], [tpr], [fpr] in [0,1]; [C >= 0]; the
    optional [delta] absent or inside (0,1)) [cap_roc] returns a result whose
    [A] is [R * (p * tpr + (1 - p) * fpr)], whose [passed_mean] is the verdict
    [A <= C] and whose [C_required] is [A]. *)
Theorem cap_roc_expected_rate (Rv p tpr fpr C : R) (delta : option R) :
  valid_rate_inputs Rv p tpr fpr C -> valid_delta delta ->
  returns (cap_roc Rv p tpr fpr C delta)
          (fun r =>
             A r = Rv * (p * tpr + (1 - p) * fpr) /\
             (passed_mean r = true <-> A r <= C) /\
             C_required r = A r).
Proof.
  intros Hv Hd.
  destruct (cap_roc_returns Rv p tpr fpr C delta Hv Hd) as (dout & E & _).
  eexists. split; [exact E |]. simpl.
  split; [reflexivity |]. split; [apply Rleb_true | reflexivity].
Qed.

Lemma cap_roc_expected_rate_witness :
  returns (cap_roc 20 0.01 0.85 0.30 4 None)
          (fun r =>
             A r = 20 * (0.01 * 0.85 + (1 - 0.01) * 0.30) /\
             (passed_mean r = true <-> A r <= 4) /\
             C_required r = A r).
Proof.
  apply (cap_roc_expected_rate 20 0.01 0.85 0.30 4 None).
  - unfold valid_rate_inputs. lra.
  - exact I.
Defined.

(** C5: [cap_roc] raises a [ValueError] whose message names the first
    offending field when [R <= 0], or [p], [tpr] or [fpr] is outside [0,1],
    or [C < 0]; nothing is returned then.  With the five inputs valid and
    [delta] absent it returns; so, without [delta], it raises exactly when
    one of the five constraints is violated. *)
Theorem cap_roc_validation (Rv p tpr fpr C : R) (delta : option R) :
  (Rv <= 0 ->
   cap_roc Rv p tpr fpr C delta = Raise (ValueError "R must be > 0")) /\
  (0 < Rv -> ~ 0 <= p <= 1 ->
   cap_roc Rv p tpr fpr C delta = Raise (ValueError "p must be in [0,1]")) /\
  (0 < Rv -> 0 <= p <= 1 -> ~ 0 <= tpr <= 1 ->
   cap_roc Rv p tpr fpr C delta = Raise (ValueError "TPR must be in [0,1]")) /\
  (0 < Rv -> 0 <= p <= 1 -> 0 <= tpr <= 1 -> ~ 0 <= fpr <= 1 ->
   cap_roc Rv p tpr fpr C delta = Raise (ValueError "FPR must be in [0,1]")) /\
  (0 < Rv -> 0 <= p <= 1 -> 0 <= tpr <= 1 -> 0 <= fpr <= 1 -> C < 0 ->
   cap_roc Rv p tpr fpr C delta = Raise (ValueError "C must be >= 0")) /\
  (valid_rate_inputs Rv p tpr fpr C ->
   exists r, cap_roc Rv p tpr fpr C None = Ok r) /\
  (raises_ValueError (cap_roc Rv p tpr fpr C None) <->
   ~ valid_rate_inputs Rv p tpr fpr C).
Proof.
  assert (HR : Rv <= 0 ->
               cap_roc Rv p tpr fpr C delta = Raise (ValueError "R must be > 0")).
  { intros H. unfold cap_roc. set_leb Rv 0. reflexivity. }
  assert (Hp : 0 < Rv -> ~ 0 <= p <= 1 ->
               cap_roc Rv p tpr fpr C delta =
               Raise (ValueError "p must be in [0,1]")).
  { intros H H0. unfold cap_roc. set_leb Rv 0.
    rewrite (proj2 (not_in_closed_unit p) H0). reflexivity. }
  assert (Ht : 0 < Rv -> 0 <= p <= 1 -> ~ 0 <= tpr <= 1 ->
               cap_roc Rv p tpr fpr C delta =
               Raise (ValueError "TPR must be in [0,1]")).
  { intros H H0 H1. unfold cap_roc. set_leb Rv 0.
    rewrite (in_closed_unit_pass p H0). unfold check_unit_interval.
    rewrite (proj2 (not_in_closed_unit tpr) H1). reflexivity. }
  assert (Hf : 0 < Rv -> 0 <= p <= 1 -> 0 <= tpr <= 1 -> ~ 0 <= fpr <= 1 ->
               cap_roc Rv p tpr fpr C delta =
               Raise (ValueError "FPR must be in [0,1]")).
  { intros H H0 H1 H2. unfold cap_roc. set_leb Rv 0.
    rewrite (in_closed_unit_pass p H0). unfold check_unit_interval.
    rewrite (in_closed_unit_pass tpr H1).
    rewrite (proj2 (not_in_closed_unit fpr) H2). reflexivity. }
  assert (HC : 0 < Rv -> 0 <= p <= 1 -> 0 <= tpr <= 1 -> 0 <= fpr <= 1 ->
               C < 0 ->
               cap_roc Rv p tpr fpr C delta =
               Raise (ValueError "C must be >= 0")).
  { intros H H0 H1 H2 H3. unfold cap_roc. set_leb Rv 0.
    rewrite (in_closed_unit_pass p H0). unfold check_unit_interval.
    rewrite (in_closed_unit_pass tpr H1), (in_closed_unit_pass fpr H2).
    rewrite bind_Ok. set_ltb C 0. reflexivity. }
  assert (Hok : valid_rate_inputs Rv p tpr fpr C ->
                exists r, cap_roc Rv p tpr fpr C None = Ok r).
  { intros Hv.
    destruct (cap_roc_returns Rv p tpr fpr C None Hv I) as (dout & E & _).
    eexists. exact E. }
  repeat (split; [assumption |]).
  split.
  - intros (msg & E) Hv. destruct (Hok Hv) as (r & Er).
    rewrite Er in E. discriminate.
  - intros Hnv. unfold raises_ValueError.
    unfold cap_roc.
    destruct (Rle_dec Rv 0) as [H | H].
    { set_leb Rv 0. eauto. }
    set_leb Rv 0.
    destruct (negb (Rleb 0 p && Rleb p 1)) eqn:E1; [eauto |].
    unfold check_unit_interval.
    destruct (negb (Rleb 0 tpr && Rleb tpr 1)) eqn:E2; [rewrite bind_Raise; eauto |].
    destruct (negb (Rleb 0 fpr && Rleb fpr 1)) eqn:E3; [rewrite bind_Raise; eauto |].
    rewrite bind_Ok.
    destruct (Rltb C 0) eqn:E4; [eauto |].
    exfalso. apply Hnv.
    apply negb_false_iff, in_closed_unit in E1, E2, E3.
    apply Rltb_false in E4. unfold valid_rate_inputs. lra.
Qed.

Lemma cap_roc_validation_witness :
  cap_roc 0 0.01 0.85 0.30 4 None = Raise (ValueError "R must be > 0") /\
  cap_roc 20 1.5 0.85 0.30 4 None = Raise (ValueError "p must be in [0,1]") /\
  cap_roc 20 0.01 (-0.1) 0.30 4 None =
    Raise (ValueError "TPR must be in [0,1]") /\
  cap_roc 20 0.01 0.85 2 4 None = Raise (ValueError "FPR must be in [0,1]") /\
  cap_roc 20 0.01 0.85 0.30 (-1) None = Raise (ValueError "C must be >= 0") /\
  exists r, cap_roc 20 0.01 0.85 0.30 4 None = Ok r.
Proof.
  repeat split.
  - apply (proj1 (cap_roc_validation 0 0.01 0.85 0.30 4 None)). lra.
  - apply (proj1 (proj2 (cap_roc_validation 20 1.5 0.85 0.30 4 None))); lra.
  - apply (proj1 (proj2 (proj2
             (cap_roc_validation 20 0.01 (-0.1) 0.30 4 None)))); lra.
  - apply (proj1 (proj2 (proj2 (proj2
             (cap_roc_validation 20 0.01 0.85 2 4 None))))); lra.
  - apply (proj1 (proj2 (proj2 (proj2 (proj2
             (cap_roc_validation 20 0.01 0.85 0.30 (-1) None)))))); lra.
  - apply (proj1 (proj2 (proj2 (proj2 (proj2 (proj2
             (cap_roc_validation 20 0.01 0.85 0.30 4 None))))))).
    unfold valid_rate_inputs. lra.
Defined.

(** C8: on valid inputs, with [p = 1] the field [fpr_max_mean_raw] and, when
    [delta] is supplied, the field [fpr_max_delta_raw] hold the marker
    [float("nan")], not a quotient; no other field is computed from the
    marker: [tpr_max_mean_raw] is the number given by its formula, and the
    rates, [lam_max] and the overload probability are computed before or
    apart from it.  With [p < 1] both fields are the numbers
    [(C / R - p * tpr) / (1 - p)] and [(lam_max / R - p * tpr) / (1 - p)],
    [lam_max] being what [lambda_max_poisson] returned. *)
Theorem cap_roc_fpr_bounds (Rv p tpr fpr C : R) (delta : option R) :
  valid_rate_inputs Rv p tpr fpr C -> valid_delta delta ->
  returns (cap_roc Rv p tpr fpr C delta)
    (fun r =>
       (p = 1 ->
        fpr_max_mean_raw r = NaN /\
        tpr_max_mean_raw r = Fin ((C / Rv - (1 - p) * fpr) / p) /\
        A r = Rv * (p * tpr + (1 - p) * fpr) /\
        forall dl, delta = Some dl ->
          exists d, delta_out r = Some d /\ fpr_max_delta_raw d = NaN /\
            lambda_max_poisson dl (PyInt (C_int d)) default_tol
              = Ok (lam_max d) /\
            poisson_overload_prob (A r) (PyInt (C_int d))
              = Ok (overload_prob_at_A d)) /\
       (p < 1 ->
        fpr_max_mean_raw r = Fin ((C / Rv - p * tpr) / (1 - p)) /\
        forall dl, delta = Some dl ->
          exists d, delta_out r = Some d /\
            lambda_max_poisson dl (PyInt (C_int d)) default_tol
              = Ok (lam_max d) /\
            fpr_max_delta_raw d
              = Fin ((lam_max d / Rv - p * tpr) / (1 - p)))).
Proof.
  intros Hv Hd.
  destruct (cap_roc_returns Rv p tpr fpr C delta Hv Hd) as (dout & E & Hdout).
  eexists. split; [exact E |]. simpl. split.
  - intros Hp. set_ltb p 1. set_ltb 0 p.
    repeat (split; [reflexivity |]).
    intros dl ->. destruct Hdout as (lam & q & El & Eq & ->).
    eexists. split; [reflexivity |]. simpl. set_ltb p 1. auto.
  - intros Hp. set_ltb p 1. split; [reflexivity |].
    intros dl ->. destruct Hdout as (lam & q & El & Eq & ->).
    eexists. split; [reflexivity |]. simpl. set_ltb p 1. auto.
Qed.

Lemma cap_roc_fpr_bounds_witness :
  returns (cap_roc 20 1 0.85 0.07 4 (Some 0.01))
    (fun r =>
       fpr_max_mean_raw r = NaN /\
       exists d, delta_out r = Some d /\ fpr_max_delta_raw d = NaN).
Proof.
  destruct (cap_roc_fpr_bounds 20 1 0.85 0.07 4 (Some 0.01))
    as (r & E & H1 & _).
  - unfold valid_rate_inputs. lra.
  - simpl. lra.
  - exists r. split; [exact E |].
    destruct (H1 eq_refl) as (Hm & _ & _ & Hdl).
    split; [exact Hm |].
    destruct (Hdl 0.01 eq_refl) as (d & Ed & Hn & _).
    exists d. auto.
Defined.

(** C10: when [delta] is supplied, the capacity [C_int] of the Poisson gate
    is [round(C)], the integer nearest to [C] with a tie going to the even
    neighbour: [0.5] gives [0], [1.5] gives [2], [2.5] gives [2]. *)
Theorem cap_roc_rounds_half_to_even :
  (forall Rv p tpr fpr C dl : R,
      valid_rate_inputs Rv p tpr fpr C -> 0 < dl < 1 ->
      returns (cap_roc Rv p tpr fpr C (Some dl))
        (fun r => exists d, delta_out r = Some d /\ C_int d = py_round C)) /\
  (forall x : R,
      Rabs (x - IZR (py_round x)) <= 0.5 /\
      (Rabs (x - IZR (py_round x)) = 0.5 -> Z.even (py_round x) = true)) /\
  py_round 0.5 = 0%Z /\ py_round 1.5 = 2%Z /\ py_round 2.5 = 2%Z.
Proof.
  split; [| split; [| split; [| split]]].
  - intros Rv p tpr fpr C dl Hv Hd.
    destruct (cap_roc_returns Rv p tpr fpr C (Some dl) Hv Hd)
      as (dout & E & lam & q & _ & _ & ->).
    eexists. split; [exact E |]. simpl. eexists. split; reflexivity.
  - intros x. split; [apply py_round_nearest | apply py_round_tie_even].
  - apply py_round_0_5.
  - apply py_round_1_5.
  - apply py_round_2_5.
Qed.

Lemma cap_roc_rounds_half_to_even_witness :
  returns (cap_roc 20 0.01 0.85 0.07 2.5 (Some 0.01))
    (fun r => exists d, delta_out r = Some d /\ C_int d = py_round 2.5).
Proof.
  apply (proj1 cap_roc_rounds_half_to_even 20 0.01 0.85 0.07 2.5 0.01).
  - unfold valid_rate_inputs. lra.
  - lra.
Defined.

(** ** The Poisson distribution function *)

(** The probability of [i] arrivals: [e^(-lam) * lam^i / i!]. *)
Definition poisson_pmf (lam : R) (i : nat) : R :=
  exp (- lam) * lam ^ i / INR (fact i).

(** The reference of the specification: the sum of [poisson_pmf] over
    [i = 0..k], empty when [k < 0], clamped to [0,1]. *)
Definition poisson_cdf_reference (k : Z) (lam : R) : R :=
  clamp (fold_right Rplus 0
           (map (fun i => poisson_pmf lam (Z.to_nat i)) (range 0 (k + 1)))).

Lemma poisson_pmf_0 (lam : R) : poisson_pmf lam 0 = exp (- lam).
Proof.
  unfold poisson_pmf. simpl. field.
Qed.

Lemma poisson_pmf_S (lam : R) (i : nat) :
  poisson_pmf lam (S i) = poisson_pmf lam i * (lam / IZR (Z.of_nat (S i))).
Proof.
  unfold poisson_pmf. rewrite <- INR_IZR_INZ, fact_simpl, mult_INR.
  rewrite <- tech_pow_Rmult. field.
  split; [apply not_0_INR; discriminate | apply INR_fact_neq_0].
Qed.

Lemma poisson_pmf_nonneg (lam : R) (i : nat) : 0 <= lam -> 0 <= poisson_pmf lam i.
Proof.
  intros Hlam. unfold poisson_pmf, Rdiv.
  apply Rmult_le_pos; [apply Rmult_le_pos |].
  - left. apply exp_pos.
  - apply pow_le. exact Hlam.
  - left. apply Rinv_0_lt_compat, INR_fact_lt_0.
Qed.

(** After the rounds [i = 1..m] the loop holds the [m]-th probability in
    [term] and the sum of the first [m + 1] in [total]. *)
Lemma fold_cdf_step (lam : R) (m : nat) :
  fold_left (cdf_step lam) (range 1 (Z.of_nat m + 1))
            (exp (- lam), exp (- lam)) =
  (poisson_pmf lam m, sum_f_R0 (poisson_pmf lam) m).
Proof.
  induction m as [| m IH].
  - simpl. rewrite poisson_pmf_0. reflexivity.
  - replace (Z.of_nat (S m) + 1)%Z with ((Z.of_nat m + 1) + 1)%Z by lia.
    rewrite range_snoc by lia. rewrite fold_left_app, IH. simpl fold_left.
    unfold cdf_step. simpl fst. simpl snd.
    replace (Z.of_nat m + 1)%Z with (Z.of_nat (S m)) by lia.
    rewrite <- poisson_pmf_S. reflexivity.
Qed.

Lemma cdf_total_sum (m : nat) (lam : R) :
  cdf_total (Z.of_nat m) lam = sum_f_R0 (poisson_pmf lam) m.
Proof.
  unfold cdf_total. rewrite fold_cdf_step. reflexivity.
Qed.

Lemma fold_right_Rplus_app (l1 l2 : list R) :
  fold_right Rplus 0 (l1 ++ l2)%list =
  fold_right Rplus 0 l1 + fold_right Rplus 0 l2.
Proof.
  induction l1 as [| x l1 IH]; simpl; [| rewrite IH]; ring.
Qed.

Lemma reference_sum (lam : R) (m : nat) :
  fold_right Rplus 0
    (map (fun i => poisson_pmf lam (Z.to_nat i)) (range 0 (Z.of_nat m + 1))) =
  sum_f_R0 (poisson_pmf lam) m.
Proof.
  induction m as [| m IH].
  - simpl. ring.
  - replace (Z.of_nat (S m) + 1)%Z with ((Z.of_nat m + 1) + 1)%Z by lia.
    rewrite range_snoc by lia. rewrite map_app, fold_right_Rplus_app, IH.
    simpl. replace (Z.to_nat (Z.of_nat m + 1)) with (S m) by lia. ring.
Qed.

(** In exact arithmetic, for every integer [k] and every [lam >= 0], the
    recurrence of [poisson_cdf] ([term_0 = e^(-lam)],
    [term_i = term_(i-1) * lam / i], summed and clamped) is the reference
    distribution function, the clamped sum of [e^(-lam) * lam^i / i!] over
    [i = 0..k], and the value lies in [0,1].  On binary64 floats the code
    departs from it: see the module [Float64]. *)
Theorem poisson_cdf_refines_reference (k : Z) (lam : R) :
  0 <= lam ->
  poisson_cdf (PyInt k) lam = Ok (poisson_cdf_reference k lam) /\
  0 <= poisson_cdf_reference k lam <= 1.
Proof.
  intros Hlam. split; [| apply clamp_bounds].
  destruct (Z.neg_nonneg_cases k) as [Hk | Hk].
  - rewrite poisson_cdf_negative by assumption.
    unfold poisson_cdf_reference. rewrite range_nil by lia. simpl.
    rewrite clamp_id by lra. reflexivity.
  - rewrite poisson_cdf_int by assumption.
    unfold poisson_cdf_reference.
    rewrite <- (Z2Nat.id k Hk), cdf_total_sum, reference_sum. reflexivity.
Qed.

Lemma poisson_cdf_refines_reference_witness :
  poisson_cdf (PyInt 4) 1.5 = Ok (poisson_cdf_reference 4 1.5) /\
  0 <= poisson_cdf_reference 4 1.5 <= 1.
Proof.
  apply (poisson_cdf_refines_reference 4 1.5). lra.
Defined.

(** ** Monotonicity in [lam] *)

(** The polynomial part of the sum: [sum over i <= m of x^i / i!]. *)
Definition exp_partial (m : nat) (x : R) : R :=
  sum_f_R0 (fun i => / INR (fact i) * x ^ i) m.

Lemma pmf_sum_factor (m : nat) (x : R) :
  sum_f_R0 (poisson_pmf x) m = exp (- x) * exp_partial m x.
Proof.
  unfold exp_partial. rewrite scal_sum. apply sum_eq.
  intros i _. unfold poisson_pmf. field. apply INR_fact_neq_0.
Qed.

(** The derivative of [exp_partial m]: the sum one term shorter. *)
Definition exp_partial' (m : nat) (x : R) : R :=
  match m with
  | O => 0
  | S m' => exp_partial m' x
  end.

Lemma derivable_exp_partial (m : nat) (x : R) :
  derivable_pt_lim (exp_partial m) x (exp_partial' m x).
Proof.
  pose proof (derivable_pt_lim_finite_sum (fun i => / INR (fact i)) x m) as H.
  replace (exp_partial' m x)
    with (match m with
          | O => 0
          | S _ => sum_f_R0 (fun k => INR (S k) * / INR (fact (S k)) * x ^ k)
                            (Init.Nat.pred m)
          end); [exact H |].
  destruct m as [| m']; [reflexivity |].
  simpl Init.Nat.pred. unfold exp_partial', exp_partial. apply sum_eq.
  intros i _. rewrite fact_simpl, mult_INR. field.
  split; [apply INR_fact_neq_0 | apply not_0_INR; discriminate].
Qed.

Lemma exp_partial_diff (m : nat) (x : R) :
  exp_partial m x - exp_partial' m x = x ^ m / INR (fact m).
Proof.
  destruct m as [| m'].
  - unfold exp_partial, exp_partial'. simpl. field.
  - unfold exp_partial', exp_partial. rewrite tech5. field.
    apply INR_fact_neq_0.
Qed.

Lemma derivable_exp_opp (x : R) :
  derivable_pt_lim (fun y => exp (- y)) x (- exp (- x)).
Proof.
  replace (- exp (- x)) with (exp (- x) * -1) by ring.
  apply (derivable_pt_lim_comp (fun y => - y) exp x (-1) (exp (- x))).
  - apply (derivable_pt_lim_opp id x 1), derivable_pt_lim_id.
  - apply derivable_pt_lim_exp.
Qed.

(** The sum of the first [m + 1] probabilities loses mass at the rate of the
    [m]-th probability. *)
Lemma derivable_pmf_sum (m : nat) (x : R) :
  derivable_pt_lim (fun y => sum_f_R0 (poisson_pmf y) m) x
                   (- poisson_pmf x m).
Proof.
  assert (H : derivable_pt_lim
                (fun y => exp (- y) * exp_partial m y) x
                (- exp (- x) * exp_partial m x
                 + exp (- x) * exp_partial' m x)).
  { apply (derivable_pt_lim_mult (fun y => exp (- y)) (exp_partial m)).
    - apply derivable_exp_opp.
    - apply derivable_exp_partial. }
  replace (- poisson_pmf x m)
    with (- exp (- x) * exp_partial m x + exp (- x) * exp_partial' m x).
  - intros eps Heps. destruct (H eps Heps) as (d & Hd).
    exists d. intros h Hh0 Hh. rewrite !pmf_sum_factor. apply Hd; assumption.
  - unfold poisson_pmf.
    replace (exp (- x) * x ^ m / INR (fact m))
      with (exp (- x) * (x ^ m / INR (fact m)))
      by (field; apply INR_fact_neq_0).
    rewrite <- exp_partial_diff. ring.
Qed.

Lemma pmf_sum_decreasing (m : nat) (x y : R) :
  0 <= x <= y ->
  sum_f_R0 (poisson_pmf y) m <= sum_f_R0 (poisson_pmf x) m.
Proof.
  intros [Hx Hxy]. destruct Hxy as [Hlt | ->]; [| lra].
  destruct (MVT_cor2 (fun l => sum_f_R0 (poisson_pmf l) m)
                     (fun l => - poisson_pmf l m) x y Hlt)
    as (c & Hc & Hxc & Hcy).
  - intros c _. apply derivable_pmf_sum.
  - pose proof (poisson_pmf_nonneg c m ltac:(lra)) as Hpos.
    assert (0 <= poisson_pmf c m * (y - x)) by (apply Rmult_le_pos; lra).
    lra.
Qed.

(** In exact arithmetic, for a fixed integer [C >= 0] and
    [0 <= lam1 <= lam2], the overload probability [1 - poisson_cdf(C, lam)]
    at [lam1] is at most the one at [lam2].  On binary64 floats it is not:
    see the module [Float64]. *)
Theorem poisson_overload_prob_monotone (C : Z) (lam1 lam2 : R) :
  (0 <= C)%Z -> 0 <= lam1 <= lam2 ->
  exists q1 q2,
    poisson_overload_prob lam1 (PyInt C) = Ok q1 /\
    poisson_overload_prob lam2 (PyInt C) = Ok q2 /\
    q1 <= q2.
Proof.
  intros HC Hlam.
  rewrite !poisson_overload_int by (assumption || lra).
  do 2 eexists. split; [reflexivity |]. split; [reflexivity |].
  rewrite <- (Z2Nat.id C HC), !cdf_total_sum.
  pose proof (clamp_mono _ _ (pmf_sum_decreasing (Z.to_nat C) lam1 lam2 Hlam)).
  lra.
Qed.

Lemma poisson_overload_prob_monotone_witness :
  exists q1 q2,
    poisson_overload_prob 1 (PyInt 4) = Ok q1 /\
    poisson_overload_prob 2 (PyInt 4) = Ok q2 /\
    q1 <= q2.
Proof.
  apply (poisson_overload_prob_monotone 4 1 2); [lia | lra].
Defined.

(** ** The boundary case [C = 0], [delta = 0.5] *)

Lemma exp_1_gt_2 : 2 < exp 1.
Proof.
  pose proof (exp_ineq1 1). lra.
Qed.

Lemma exp_ln_2 : exp (ln 2) = 2.
Proof.
  apply exp_ln. lra.
Qed.

Lemma ln_2_bounds : 0 < ln 2 < 1.
Proof.
  split; apply exp_lt_inv; rewrite exp_ln_2.
  - rewrite exp_0. lra.
  - apply exp_1_gt_2.
Qed.

Lemma exp_opp_unit (lam : R) : 0 <= lam -> 0 < exp (- lam) <= 1.
Proof.
  intros Hlam. split; [apply exp_pos |].
  rewrite <- exp_0. destruct Hlam as [Hlt | <-].
  - left. apply exp_increasing. lra.
  - rewrite Ropp_0. lra.
Qed.

(** With capacity [0] the overload probability is [1 - e^(-lam)]. *)
Lemma poisson_overload_C0 (lam : R) :
  0 <= lam -> poisson_overload_prob lam (PyInt 0) = Ok (1 - exp (- lam)).
Proof.
  intros Hlam. rewrite poisson_overload_int by (assumption || lia).
  change 0%Z with (Z.of_nat 0). rewrite cdf_total_sum. simpl sum_f_R0.
  rewrite poisson_pmf_0, clamp_id; [reflexivity |].
  pose proof (exp_opp_unit lam Hlam). lra.
Qed.

(** It exceeds one half exactly beyond [ln 2]. *)
Lemma overload_C0_above_half (lam : R) :
  0.5 < 1 - exp (- lam) <-> ln 2 < lam.
Proof.
  rewrite exp_Ropp. pose proof (exp_pos lam) as Hpos. split; intros H.
  - apply exp_lt_inv. rewrite exp_ln_2.
    destruct (Rlt_dec 2 (exp lam)) as [H2 | H2]; [exact H2 |].
    assert (H1 : / 2 <= / exp lam) by (apply Rinv_le_contravar; lra).
    lra.
  - apply exp_increasing in H. rewrite exp_ln_2 in H.
    apply Rinv_lt_contravar in H; [lra |].
    apply Rmult_lt_0_compat; lra.
Qed.

(** The bisection keeps [ln 2] between [lo] and [hi] and halves the bracket
    in every round. *)
Lemma bisect_brackets_ln_2 (tol : R) (fuel : nat) (lo hi w : R) :
  0 <= lo -> lo <= ln 2 < hi -> hi - lo <= w ->
  returns (bisect 0.5 (PyInt 0) tol fuel lo hi)
    (fun lam =>
       lam <= ln 2 /\
       (ln 2 - lam < tol * (1 + lam) \/ ln 2 - lam < w / 2 ^ fuel)).
Proof.
  revert lo hi w. induction fuel as [| fuel IH]; intros lo hi w Hlo Hb Hw.
  - exists lo. split; [reflexivity |]. split; [lra |]. right. simpl. lra.
  - rewrite bisect_S. set (mid := 0.5 * (lo + hi)).
    rewrite poisson_overload_C0, bind_Ok by (unfold mid; lra).
    assert (Hpow : 0 < 2 ^ fuel) by (apply pow_lt; lra).
    assert (Hhalf : w / 2 / 2 ^ fuel = w / 2 ^ S fuel)
      by (simpl; field; lra).
    by_cases_R 0.5 (1 - exp (- mid)); rewrite H.
    + apply overload_C0_above_half in Hlt.
      by_cases_R (mid - lo) (tol * (1 + lo)); rewrite H0.
      * exists lo. split; [reflexivity |]. split; [lra |]. left. lra.
      * rewrite <- Hhalf. apply IH; unfold mid in *; lra.
    + assert (Hmid : mid <= ln 2).
      { destruct (Rle_dec mid (ln 2)) as [Hle | Hnle]; [exact Hle |].
        exfalso. apply Hlt, overload_C0_above_half. lra. }
      by_cases_R (hi - mid) (tol * (1 + mid)); rewrite H0.
      * exists mid. split; [reflexivity |]. split; [lra |]. left. lra.
      * rewrite <- Hhalf. apply IH; unfold mid in *; lra.
Qed.

Lemma pow_2_80_large : 1000000 < 2 ^ 80.
Proof.
  replace 80%nat with (20 * 4)%nat by reflexivity. rewrite pow_mult.
  replace (2 ^ 20) with 1048576 by (simpl; lra).
  simpl. lra.
Qed.

(** C9: [lambda_max_poisson(0.5, 0)] returns a rate within [1e-6] of
    [ln 2], the solution of [1 - e^(-lam) = 0.5]. *)
Theorem lambda_max_half_capacity_0 :
  1 - exp (- ln 2) = 0.5 /\
  returns (lambda_max_poisson 0.5 (PyInt 0) default_tol)
          (fun lam => Rabs (lam - ln 2) < 1e-6).
Proof.
  split.
  { rewrite exp_Ropp, exp_ln_2. lra. }
  pose proof ln_2_bounds as Hln.
  rewrite lambda_max_poisson_body by (lra || (simpl; lia)).
  assert (Ehi : Rmax 1 (num_add1 (PyInt 0)) = 1)
    by (simpl; apply Rmax_left; lra).
  rewrite Ehi, expand_hi_S. clear Ehi.
  rewrite poisson_overload_C0, bind_Ok by lra.
  assert (H1 : 0.5 < 1 - exp (- (1))) by (apply overload_C0_above_half; lra).
  set_ltb 0.5 (1 - exp (- (1))). rewrite bind_Ok.
  destruct (bisect_brackets_ln_2 default_tol 80 0 1 1)
    as (lam & E & Hle & Hnear); try lra.
  exists lam. split; [exact E |].
  rewrite Rabs_left1 by lra.
  destruct Hnear as [Htol | Hfuel].
  - unfold default_tol in Htol. lra.
  - pose proof pow_2_80_large as Hbig.
    assert (H2 : 1 / 2 ^ 80 < 1 / 1000000).
    { unfold Rdiv. rewrite !Rmult_1_l.
      apply Rinv_lt_contravar; [| exact Hbig].
      apply Rmult_lt_0_compat; lra. }
    lra.
Qed.

(** ** The two scenarios of the usage notes *)

(** [--R 20 --p 0.01 --tpr 0.85 --fpr 0.30 --C 4]: the mean gate fails. *)
Example scenario_mean_gate :
  returns (cap_roc 20 0.01 0.85 0.30 4 None)
          (fun r => A r = 6.11 /\ passed_mean r = false /\ delta_out r = None).
Proof.
  destruct (cap_roc_returns 20 0.01 0.85 0.30 4 None) as (dout & E & ->).
  - unfold valid_rate_inputs. lra.
  - exact I.
  - eexists. split; [exact E |]. simpl. unfold alert_rate.
    split; [lra |]. split; [apply Rleb_false; lra | reflexivity].
Qed.

(** [--R 20 --p 0.01 --tpr 0.85 --fpr 0.07 --C 4 --delta 0.01]: the mean gate
    passes, the capacity of the Poisson gate is [4], and the rate it allows
    keeps the overload probability within [0.01]. *)
Example scenario_delta_gate :
  returns (cap_roc 20 0.01 0.85 0.07 4 (Some 0.01))
    (fun r =>
       A r = 1.556 /\ passed_mean r = true /\
       exists d, delta_out r = Some d /\ C_int d = 4%Z /\
         safe 0.01 4 (lam_max d) /\
         (passed_delta d = true <-> 1.556 <= lam_max d)).
Proof.
  destruct (cap_roc_returns 20 0.01 0.85 0.07 4 (Some 0.01))
    as (dout & E & lam & q & El & _ & ->).
  - unfold valid_rate_inputs. lra.
  - simpl. lra.
  - assert (E4 : py_round 4 = 4%Z) by apply (py_round_integer 4).
    rewrite E4 in *.
    assert (EA : alert_rate 20 0.01 0.85 0.07 = 1.556)
      by (unfold alert_rate; lra).
    rewrite EA in *.
    eexists. split; [exact E |]. simpl.
    split; [reflexivity |]. split; [apply Rleb_true; lra |].
    eexists. split; [reflexivity |]. simpl. split; [reflexivity |].
    split; [| apply Rleb_true].
    destruct (lambda_max_poisson_safe 0.01 4 default_tol) as (lam' & El' & _ & Hs);
      [lra | lia |].
    rewrite El in El'. injection El' as <-. exact Hs.
Qed.

(** * Further properties of the Poisson gate *)

(** ** The sum before the clamp *)

Lemma pmf_sum_at_0 (m : nat) : sum_f_R0 (poisson_pmf 0) m = 1.
Proof.
  rewrite <- cdf_total_sum. apply cdf_total_0.
Qed.

Lemma pmf_sum_grows (lam : R) (m1 m2 : nat) :
  0 <= lam -> (m1 <= m2)%nat ->
  sum_f_R0 (poisson_pmf lam) m1 <= sum_f_R0 (poisson_pmf lam) m2.
Proof.
  intros Hlam Hm. induction Hm as [| m2 Hm IH]; [lra |].
  simpl sum_f_R0. pose proof (poisson_pmf_nonneg lam (S m2) Hlam). lra.
Qed.

Lemma pmf_sum_unit (lam : R) (m : nat) :
  0 <= lam -> 0 < sum_f_R0 (poisson_pmf lam) m <= 1.
Proof.
  intros Hlam. split.
  - pose proof (pmf_sum_grows lam 0 m Hlam (Nat.le_0_l m)) as H.
    simpl in H. rewrite poisson_pmf_0 in H.
    pose proof (exp_pos (- lam)). lra.
  - rewrite <- (pmf_sum_at_0 m). apply pmf_sum_decreasing. lra.
Qed.

(** The value [poisson_cdf] returns on its domain, with the clamp removed. *)
Lemma poisson_cdf_value (k : Z) (lam : R) :
  (0 <= k)%Z -> 0 <= lam ->
  poisson_cdf (PyInt k) lam = Ok (sum_f_R0 (poisson_pmf lam) (Z.to_nat k)).
Proof.
  intros Hk Hlam. rewrite poisson_cdf_int by assumption.
  rewrite <- (Z2Nat.id k Hk) at 1. rewrite cdf_total_sum.
  rewrite clamp_id; [reflexivity |].
  pose proof (pmf_sum_unit lam (Z.to_nat k) Hlam). lra.
Qed.

(** X2: for a fixed [lam >= 0], [poisson_cdf] is non-decreasing in [k], over
    all integers [k], the negative ones included. *)
Theorem poisson_cdf_monotone_in_k (k1 k2 : Z) (lam : R) :
  0 <= lam -> (k1 <= k2)%Z ->
  exists c1 c2,
    poisson_cdf (PyInt k1) lam = Ok c1 /\
    poisson_cdf (PyInt k2) lam = Ok c2 /\
    c1 <= c2.
Proof.
  intros Hlam Hk.
  destruct (Z.neg_nonneg_cases k1) as [H1 | H1].
  - rewrite (poisson_cdf_negative k1) by assumption.
    destruct (Z.neg_nonneg_cases k2) as [H2 | H2].
    + rewrite (poisson_cdf_negative k2) by assumption.
      do 2 eexists. split; [reflexivity |]. split; [reflexivity | lra].
    + rewrite poisson_cdf_int by assumption.
      do 2 eexists. split; [reflexivity |]. split; [reflexivity |].
      apply clamp_bounds.
  - rewrite !poisson_cdf_value by (assumption || lia).
    do 2 eexists. split; [reflexivity |]. split; [reflexivity |].
    apply pmf_sum_grows; [assumption | lia].
Qed.

Lemma poisson_cdf_monotone_in_k_witness :
  exists c1 c2,
    poisson_cdf (PyInt (-1)) 1.5 = Ok c1 /\
    poisson_cdf (PyInt 3) 1.5 = Ok c2 /\
    c1 <= c2.
Proof.
  apply (poisson_cdf_monotone_in_k (-1) 3 1.5); [lra | lia].
Defined.

(** X3: with no arrivals expected ([lam = 0]) the count is [0] for sure:
    for every integer [k >= 0], [poisson_cdf(k, 0)] is exactly [1] and the
    overload probability is exactly [0]. *)
Theorem poisson_at_rate_0 (k : Z) :
  (0 <= k)%Z ->
  poisson_cdf (PyInt k) 0 = Ok 1 /\
  poisson_overload_prob 0 (PyInt k) = Ok 0.
Proof.
  intros Hk. split; [| apply poisson_overload_at_0, Hk].
  rewrite poisson_cdf_int, cdf_total_0, clamp_id by (assumption || lra).
  reflexivity.
Qed.

Lemma poisson_at_rate_0_witness :
  poisson_cdf (PyInt 7) 0 = Ok 1 /\
  poisson_overload_prob 0 (PyInt 7) = Ok 0.
Proof.
  apply (poisson_at_rate_0 7). lia.
Defined.

(** X5: [poisson_overload_prob] has no guard of its own.  For a negative
    integer capacity it returns exactly [1] whatever [lam] is, a negative
    [lam] included; for a capacity [C >= 0] and a negative [lam] the
    [ValueError] of [poisson_cdf] comes through. *)
Theorem poisson_overload_prob_edges (C : Z) (lam : R) :
  ((C < 0)%Z -> poisson_overload_prob lam (PyInt C) = Ok 1) /\
  ((0 <= C)%Z -> lam < 0 ->
   poisson_overload_prob lam (PyInt C) =
   Raise (ValueError "lam must be >= 0")).
Proof.
  unfold poisson_overload_prob. split.
  - intros HC. rewrite poisson_cdf_negative by assumption.
    rewrite bind_Ok. f_equal. ring.
  - intros HC Hlam. unfold poisson_cdf. simpl num_ltb0.
    replace (C <? 0)%Z with false by (symmetry; apply Z.ltb_ge; lia).
    set_ltb lam 0. reflexivity.
Qed.

Lemma poisson_overload_prob_edges_witness :
  poisson_overload_prob (-2) (PyInt (-1)) = Ok 1 /\
  poisson_overload_prob (-2) (PyInt 3) =
    Raise (ValueError "lam must be >= 0").
Proof.
  split.
  - apply (proj1 (poisson_overload_prob_edges (-1) (-2))). lia.
  - apply (proj2 (poisson_overload_prob_edges 3 (-2))); [lia | lra].
Defined.

(** ** The bracket of [lambda_max_poisson] *)

Section Bracket.

Variable delta : R.
Variable n : Z.
Variable tol : R.
Hypothesis n_nonneg : (0 <= n)%Z.

(** [lam] was checked unsafe: its overload probability exceeds [delta]. *)
Definition unsafe (lam : R) : Prop :=
  returns (poisson_overload_prob lam (PyInt n)) (fun q => delta < q).

(** The bracketing loop stops on an unsafe [hi], or beyond [10^6], or when
    its rounds are used up; it never more than doubles past [10^6]. *)
Lemma expand_hi_bracket (fuel : nat) (hi : R) :
  0 < hi ->
  returns (expand_hi delta (PyInt n) fuel hi)
    (fun hi' =>
       hi <= hi' /\ (hi' <= 2 * hi \/ hi' <= 2000000) /\
       (unsafe hi' \/ 1000000 < hi' \/ hi' = hi * 2 ^ fuel)).
Proof.
  revert hi. induction fuel as [| fuel IH]; intros hi Hhi.
  - exists hi. split; [reflexivity |]. simpl. repeat split; lra.
  - rewrite expand_hi_S.
    assert (Eq : poisson_overload_prob hi (PyInt n) =
                 Ok (1 - clamp (cdf_total n hi)))
      by (apply poisson_overload_int; [assumption | lra]).
    rewrite Eq, bind_Ok.
    by_cases_R delta (1 - clamp (cdf_total n hi)); rewrite H.
    + exists hi. split; [reflexivity |]. repeat split; try lra.
      left. eexists. split; [exact Eq | exact Hlt].
    + by_cases_R 1e6 (hi * 2); rewrite H0.
      * exists (hi * 2). split; [reflexivity |]. repeat split; lra.
      * destruct (IH (hi * 2)) as (hi' & E & Hle & Hcap & Hend); [lra |].
        exists hi'. split; [exact E |]. repeat split; try lra.
        destruct Hend as [Hu | [Hbig | ->]]; auto.
        right. right. simpl. ring.
Qed.

(** The bisection loop returns a [lo] below an [hi] that is the [hi] it
    started from or a midpoint found unsafe, and the two are [tol]-close or
    the bracket was halved in every round. *)
Lemma bisect_bracket (hi1 : R) (fuel : nat) (lo hi w : R) :
  0 <= lo < hi -> hi <= hi1 -> hi - lo <= w -> unsafe hi \/ hi = hi1 ->
  returns (bisect delta (PyInt n) tol fuel lo hi)
    (fun lam =>
       exists hi',
         0 <= lam < hi' /\ hi' <= hi1 /\ (unsafe hi' \/ hi' = hi1) /\
         (hi' - lam < tol * (1 + lam) \/ hi' - lam <= w / 2 ^ fuel)).
Proof.
  revert lo hi w. induction fuel as [| fuel IH]; intros lo hi w Hlo Hhi Hw HQ.
  - exists lo. split; [reflexivity |]. exists hi. simpl.
    repeat split; try lra; auto.
  - rewrite bisect_S. set (mid := 0.5 * (lo + hi)).
    assert (Eq : poisson_overload_prob mid (PyInt n) =
                 Ok (1 - clamp (cdf_total n mid)))
      by (apply poisson_overload_int; [assumption | unfold mid; lra]).
    rewrite Eq, bind_Ok.
    assert (Hpow : 0 < 2 ^ fuel) by (apply pow_lt; lra).
    assert (Hhalf : w / 2 / 2 ^ fuel = w / 2 ^ S fuel)
      by (simpl; field; lra).
    by_cases_R delta (1 - clamp (cdf_total n mid)); rewrite H.
    + assert (Hu : unsafe mid) by (eexists; split; [exact Eq | exact Hlt]).
      by_cases_R (mid - lo) (tol * (1 + lo)); rewrite H0.
      * exists lo. split; [reflexivity |]. exists mid.
        unfold mid in *. repeat split; try lra; auto.
      * rewrite <- Hhalf. apply IH; unfold mid in *; try lra; auto.
    + by_cases_R (hi - mid) (tol * (1 + mid)); rewrite H0.
      * exists mid. split; [reflexivity |]. exists hi.
        unfold mid in *. repeat split; try lra; auto.
      * rewrite <- Hhalf. apply IH; unfold mid in *; try lra; auto.
Qed.

End Bracket.

Lemma lambda_max_poisson_bracket (delta : R) (C : Z) (tol : R) :
  0 < delta < 1 -> (0 <= C)%Z ->
  returns (lambda_max_poisson delta (PyInt C) tol)
    (fun lam =>
       exists hi hi1,
         0 <= lam < hi /\ hi <= hi1 /\
         (hi1 <= 2 * (IZR C + 1) \/ hi1 <= 2000000) /\
         (unsafe delta C hi \/ 1000000 < hi) /\
         (hi - lam < tol * (1 + lam) \/ hi - lam <= hi1 / 2 ^ 80)).
Proof.
  intros Hd HC.
  rewrite lambda_max_poisson_body by (assumption || (simpl; lia)).
  assert (E0 : Rmax 1 (num_add1 (PyInt C)) = IZR C + 1).
  { simpl. apply Rmax_right. apply IZR_le in HC. lra. }
  rewrite E0. clear E0.
  assert (HC' : 0 <= IZR C) by (apply IZR_le in HC; exact HC).
  destruct (expand_hi_bracket delta C HC 80 (IZR C + 1))
    as (hi1 & E & Hle & Hcap & Hend); [lra |].
  rewrite E, bind_Ok.
  assert (Hend' : unsafe delta C hi1 \/ 1000000 < hi1).
  { destruct Hend as [Hu | [Hbig | ->]]; auto.
    right. pose proof pow_2_80_large.
    assert (1 * 2 ^ 80 <= (IZR C + 1) * 2 ^ 80)
      by (apply Rmult_le_compat_r; lra).
    lra. }
  destruct (bisect_bracket delta C tol HC hi1 80 0 hi1 hi1)
    as (lam & El & hi & Hlam & Hhi & HQ & Hw); try lra; auto.
  exists lam. split; [exact El |]. exists hi, hi1.
  repeat split; try lra; auto.
  destruct HQ as [Hu | ->]; auto.
Qed.

(** X7: the search is capped.  For [delta] in (0,1) and an integer [C >= 0]
    the returned rate is non-negative and below [max(2 * (C + 1), 2 * 10^6)],
    however close to [1] the tolerated risk [delta] is. *)
Theorem lambda_max_capped (delta : R) (C : Z) (tol : R) :
  0 < delta < 1 -> (0 <= C)%Z ->
  returns (lambda_max_poisson delta (PyInt C) tol)
    (fun lam => 0 <= lam < Rmax (2 * (IZR C + 1)) 2000000).
Proof.
  intros Hd HC.
  destruct (lambda_max_poisson_bracket delta C tol Hd HC)
    as (lam & E & hi & hi1 & Hlam & Hhi & Hcap & _).
  exists lam. split; [exact E |].
  assert (Hmax : hi1 <= Rmax (2 * (IZR C + 1)) 2000000).
  { destruct Hcap as [H | H].
    - eapply Rle_trans; [exact H | apply Rmax_l].
    - eapply Rle_trans; [exact H | apply Rmax_r]. }
  lra.
Qed.

Lemma lambda_max_capped_witness :
  returns (lambda_max_poisson 0.999 (PyInt 4) default_tol)
    (fun lam => 0 <= lam < Rmax (2 * (IZR 4 + 1)) 2000000).
Proof.
  apply (lambda_max_capped 0.999 4 default_tol); [lra | lia].
Defined.

(** * Further properties of [cap_roc] *)

(** The four guards on the rates do not look at [delta]. *)
Lemma cap_roc_invalid_raises (Rv p tpr fpr C : R) (delta : option R) :
  ~ valid_rate_inputs Rv p tpr fpr C ->
  exists field,
    cap_roc Rv p tpr fpr C delta = Raise (ValueError field) /\
    field <> "delta must be in (0,1)".
Proof.
  intros Hnv. unfold cap_roc.
  destruct (Rle_dec Rv 0) as [H | H].
  { set_leb Rv 0. eexists. split; [reflexivity | discriminate]. }
  set_leb Rv 0.
  destruct (negb (Rleb 0 p && Rleb p 1)) eqn:E1;
    [eexists; split; [reflexivity | discriminate] |].
  unfold check_unit_interval.
  destruct (negb (Rleb 0 tpr && Rleb tpr 1)) eqn:E2;
    [rewrite bind_Raise; eexists; split; [reflexivity | discriminate] |].
  destruct (negb (Rleb 0 fpr && Rleb fpr 1)) eqn:E3;
    [rewrite bind_Raise; eexists; split; [reflexivity | discriminate] |].
  rewrite bind_Ok.
  destruct (Rltb C 0) eqn:E4;
    [eexists; split; [reflexivity | discriminate] |].
  exfalso. apply Hnv.
  apply negb_false_iff, in_closed_unit in E1, E2, E3.
  apply Rltb_false in E4. unfold valid_rate_inputs. lra.
Qed.

(** X8: when [delta] is supplied, [cap_roc] raises a [ValueError] exactly
    when a rate is invalid or [delta] is outside (0,1); the rates are checked
    first, so the message is the one about [delta] only when the five rates
    are valid. *)
Theorem cap_roc_errors_with_delta (Rv p tpr fpr C dl : R) :
  (raises_ValueError (cap_roc Rv p tpr fpr C (Some dl)) <->
   ~ (valid_rate_inputs Rv p tpr fpr C /\ 0 < dl < 1)) /\
  (cap_roc Rv p tpr fpr C (Some dl) =
     Raise (ValueError "delta must be in (0,1)") <->
   valid_rate_inputs Rv p tpr fpr C /\ ~ 0 < dl < 1).
Proof.
  assert (Hgood : valid_rate_inputs Rv p tpr fpr C -> 0 < dl < 1 ->
                  exists r, cap_roc Rv p tpr fpr C (Some dl) = Ok r).
  { intros Hv Hd.
    destruct (cap_roc_returns Rv p tpr fpr C (Some dl) Hv Hd) as (dout & E & _).
    eexists. exact E. }
  assert (Hdec : forall P : Prop, P \/ ~ P) by apply Classical_Prop.classic.
  split; split.
  - intros (msg & E) (Hv & Hd). destruct (Hgood Hv Hd) as (r & Er).
    rewrite Er in E. discriminate.
  - intros Hn. destruct (Hdec (valid_rate_inputs Rv p tpr fpr C)) as [Hv | Hv].
    + exists "delta must be in (0,1)". apply cap_roc_bad_delta; tauto.
    + destruct (cap_roc_invalid_raises Rv p tpr fpr C (Some dl) Hv)
        as (field & E & _).
      exists field. exact E.
  - intros E. destruct (Hdec (valid_rate_inputs Rv p tpr fpr C)) as [Hv | Hv].
    + split; [exact Hv |]. intros Hd. destruct (Hgood Hv Hd) as (r & Er).
      rewrite Er in E. discriminate.
    + destruct (cap_roc_invalid_raises Rv p tpr fpr C (Some dl) Hv)
        as (field & E' & Hne).
      rewrite E' in E. injection E as ->. contradiction.
  - intros (Hv & Hd). apply cap_roc_bad_delta; assumption.
Qed.

(** X12: on valid inputs the expected alert rate lies between [0] and the
    incoming volume [R]: a detector cannot flag more items than arrive. *)
Theorem cap_roc_rate_within_volume (Rv p tpr fpr C : R) (delta : option R) :
  valid_rate_inputs Rv p tpr fpr C -> valid_delta delta ->
  returns (cap_roc Rv p tpr fpr C delta) (fun r => 0 <= A r <= Rv).
Proof.
  intros Hv Hd.
  destruct (cap_roc_returns Rv p tpr fpr C delta Hv Hd) as (dout & E & _).
  eexists. split; [exact E |]. simpl.
  split; [exact (alert_rate_nonneg _ _ _ _ _ Hv) |].
  destruct Hv as (HR & Hp & Ht & Hf & _). unfold alert_rate.
  assert (H1 : p * tpr <= p * 1) by (apply Rmult_le_compat_l; lra).
  assert (H2 : (1 - p) * fpr <= (1 - p) * 1)
    by (apply Rmult_le_compat_l; lra).
  assert (H3 : Rv * (p * tpr + (1 - p) * fpr) <= Rv * 1)
    by (apply Rmult_le_compat_l; lra).
  lra.
Qed.

Lemma cap_roc_rate_within_volume_witness :
  returns (cap_roc 20 0.01 0.85 0.30 4 None) (fun r => 0 <= A r <= 20).
Proof.
  apply (cap_roc_rate_within_volume 20 0.01 0.85 0.30 4 None).
  - unfold valid_rate_inputs. lra.
  - exact I.
Defined.

(** X13: lowering the false positive rate and raising the capacity never
    hurts.  Between two valid runs that differ only in [fpr' <= fpr] and
    [C <= C'], the expected rate does not grow, it is unchanged when
    [fpr' = fpr], and a mean gate that passed still passes. *)
Theorem cap_roc_mean_gate_monotone
  (Rv p tpr fpr fpr' C C' : R) (delta : option R) :
  valid_rate_inputs Rv p tpr fpr C -> valid_rate_inputs Rv p tpr fpr' C' ->
  valid_delta delta -> fpr' <= fpr -> C <= C' ->
  returns (cap_roc Rv p tpr fpr C delta)
    (fun r =>
       returns (cap_roc Rv p tpr fpr' C' delta)
         (fun r' =>
            A r' <= A r /\
            (fpr' = fpr -> A r' = A r) /\
            (passed_mean r = true -> passed_mean r' = true))).
Proof.
  intros Hv Hv' Hd Hf HC.
  destruct (cap_roc_returns Rv p tpr fpr C delta Hv Hd) as (dout & E & _).
  destruct (cap_roc_returns Rv p tpr fpr' C' delta Hv' Hd) as (dout' & E' & _).
  eexists. split; [exact E |]. eexists. split; [exact E' |]. simpl.
  destruct Hv as (HR & Hp & _). unfold alert_rate.
  assert (H1 : (1 - p) * fpr' <= (1 - p) * fpr)
    by (apply Rmult_le_compat_l; lra).
  assert (H2 : Rv * (p * tpr + (1 - p) * fpr')
               <= Rv * (p * tpr + (1 - p) * fpr))
    by (apply Rmult_le_compat_l; lra).
  split; [exact H2 |]. split; [intros ->; reflexivity |].
  rewrite !Rleb_true. lra.
Qed.

Lemma cap_roc_mean_gate_monotone_witness :
  returns (cap_roc 20 0.01 0.85 0.30 4 None)
    (fun r =>
       returns (cap_roc 20 0.01 0.85 0.07 5 None)
         (fun r' =>
            A r' <= A r /\
            (0.07 = 0.30 -> A r' = A r) /\
            (passed_mean r = true -> passed_mean r' = true))).
Proof.
  apply (cap_roc_mean_gate_monotone 20 0.01 0.85 0.30 0.07 4 5 None).
  - unfold valid_rate_inputs. lra.
  - unfold valid_rate_inputs. lra.
  - exact I.
  - lra.
  - lra.
Defined.

(** X14: a capacity that is already a whole number is used as it is by the
    Poisson gate: with valid inputs, [delta] in (0,1) and [C] the integer
    [z], the result's [C_int] is [z]. *)
Theorem cap_roc_integer_capacity (Rv p tpr fpr dl : R) (z : Z) :
  valid_rate_inputs Rv p tpr fpr (IZR z) -> 0 < dl < 1 ->
  returns (cap_roc Rv p tpr fpr (IZR z) (Some dl))
    (fun r => exists d, delta_out r = Some d /\ C_int d = z).
Proof.
  intros Hv Hd.
  destruct (cap_roc_returns Rv p tpr fpr (IZR z) (Some dl) Hv Hd)
    as (dout & E & lam & q & _ & _ & ->).
  eexists. split; [exact E |]. simpl.
  eexists. split; [reflexivity |]. simpl. apply py_round_integer.
Qed.

Lemma cap_roc_integer_capacity_witness :
  returns (cap_roc 20 0.01 0.85 0.07 (IZR 4) (Some 0.01))
    (fun r => exists d, delta_out r = Some d /\ C_int d = 4%Z).
Proof.
  apply (cap_roc_integer_capacity 20 0.01 0.85 0.07 0.01 4).
  - unfold valid_rate_inputs. lra.
  - lra.
Defined.

(** * The report of [main]

    [main] is embedded after [parse_args]: its arguments are the six parsed
    values.  What it prints is the list of the strings handed to [print], in
    order.  How Python renders a float under the format specifications [g]
    and [.6g] is left open: the two renderings are parameters. *)

From Stdlib Require Import DecimalString.

(** The newline character. *)
Definition nl : string := String (Ascii.ascii_of_nat 10) EmptyString.

(** [s * n] on a string. *)
Fixpoint str_mul (s : string) (n : nat) : string :=
  match n with
  | O => EmptyString
  | S n' => s ++ str_mul s n'
  end.

(** [str] of an integer. *)
Definition str_int (z : Z) : string := NilZero.string_of_int (Z.to_int z).

(** [math.isfinite]; the numbers of the model are all finite. *)
Definition isfinite (x : pyfloat) : bool :=
  match x with
  | Fin _ => true
  | NaN => false
  end.

(** [x < y] and [x > y] for a field [x]; a comparison with [nan] is false. *)
Definition pf_ltb (x : pyfloat) (y : R) : bool :=
  match x with
  | Fin a => Rltb a y
  | NaN => false
  end.

Definition pf_gtb (x : pyfloat) (y : R) : bool :=
  match x with
  | Fin a => Rltb y a
  | NaN => false
  end.

Section Report.

(** [format(x, "g")] and [format(x, ".6g")] *)
Variable fmt_g : R -> string.
Variable fmt_6g : pyfloat -> string.

(** From the title to the line of [FPR_max_mean]. *)
Definition report_head (aR ap atpr afpr aC : R) (out : cap_result)
  : list string :=
  [ nl ++ "CAP-ROC v0.2 (delta gate)";
    str_mul "-" 70;
    "Inputs: R=" ++ fmt_g aR ++ ", p=" ++ fmt_g ap ++ ", TPR=" ++ fmt_g atpr
      ++ ", FPR=" ++ fmt_g afpr ++ ", C=" ++ fmt_g aC;
    "Expected alert rate A = " ++ fmt_6g (Fin (A out)) ++ " alerts/time";
    "Mean (expectation) gate: "
      ++ (if passed_mean out then "PASS" else "FAIL")
      ++ " (A " ++ (if passed_mean out then "<=" else ">") ++ " C)";
    nl ++ "Derived (mean gate)";
    str_mul "-" 70;
    "FPR_max_mean (raw) = " ++ fmt_6g (fpr_max_mean_raw out) ].

(** The notes under [if math.isfinite(out["fpr_max_mean_raw"])]. *)
Definition report_mean_notes (out : cap_result) : list string :=
  if isfinite (fpr_max_mean_raw out) then
    if pf_ltb (fpr_max_mean_raw out) 0 then
      [ "Note: FPR_max_mean < 0 => true positives alone exceed capacity (even if FPR=0)." ]
    else if pf_gtb (fpr_max_mean_raw out) 1 then
      [ "Note: FPR_max_mean > 1 => capacity is high relative to volume; any valid FPR<=1 satisfies mean gate at this TPR." ]
    else []
  else [].

(** The lines of [C_required] and [TPR_max_mean]. *)
Definition report_capacity (out : cap_result) : list string :=
  [ "C_required = " ++ fmt_6g (Fin (C_required out))
      ++ " alerts/time (minimum capacity to sustain this operating point)";
    "TPR_max_mean at this FPR (raw) = " ++ fmt_6g (tpr_max_mean_raw out) ].

(** The two branches of [if out["delta"] is not None]. *)
Definition report_delta (out : cap_result) : list string :=
  match delta_out out with
  | Some d =>
      [ nl ++ "Delta (tail-risk) gate — Poisson model";
        str_mul "-" 70;
        "Target: P(N > C_int) <= δ with δ=" ++ fmt_6g (Fin (delta d))
          ++ ", C_int=" ++ str_int (C_int d);
        "λ_max (exact Poisson inversion) = " ++ fmt_6g (Fin (lam_max d))
          ++ " alerts/time";
        "Overload probability at current A: P(Poisson(A) > C_int) = "
          ++ fmt_6g (Fin (overload_prob_at_A d));
        "Delta gate: " ++ (if passed_delta d then "PASS" else "FAIL")
          ++ " (A " ++ (if passed_delta d then "<=" else ">") ++ " λ_max)";
        "FPR_max_delta (raw) = " ++ fmt_6g (fpr_max_delta_raw d) ]
      ++ (if isfinite (fpr_max_delta_raw d) && pf_ltb (fpr_max_delta_raw d) 0
          then [ "Note: FPR_max_delta < 0 => even anomaly alerts alone exceed δ-safe mean; increase capacity or narrow scope." ]
          else [])
      ++ [ nl ++ "Reminder: Poisson assumes independence. If alerts are bursty/correlated, tail risk may be understated; consider an overdispersed model." ]
  | None => [ nl ++ "Delta gate: disabled (no --delta provided)" ]
  end.

(** The closing reminders; two of them depend on [args.delta]. *)
Definition report_reminders (adelta : option R) : list string :=
  [ nl ++ "Feasibility reminders";
    str_mul "-" 70;
    "Mean gate:   A = R[p*TPR + (1-p)*FPR] <= C" ]
  ++ (match adelta with
      | Some _ => [ "Delta gate:  Find λ_max s.t. P(Poisson(λ_max) > C_int) <= δ; require A <= λ_max" ]
      | None => []
      end)
  ++ [ "Mean derived:  FPR <= (C/R - p*TPR)/(1-p)  (if p<1)" ]
  ++ (match adelta with
      | Some _ => [ "Delta derived: FPR <= (λ_max/R - p*TPR)/(1-p)  (if p<1)" ]
      | None => []
      end).

Definition main (aR ap atpr afpr aC : R) (adelta : option R)
  : result (list string) :=
  out <- cap_roc aR ap atpr afpr aC adelta ;;
  Ok (report_head aR ap atpr afpr aC out
      ++ report_mean_notes out
      ++ report_capacity out
      ++ report_delta out
      ++ report_reminders adelta)%list.

End Report.

(** ** What the report says *)

(** Split a hypothesis [In s lines], [lines] a list of rendered lines, into
    its cases, and drop the lines that differ from [s]. *)
Ltac case_lines H :=
  repeat match type of H with
         | context [if ?b then _ else _] => destruct b
         | context [match ?x with Some _ => _ | None => _ end] => destruct x
         end;
  simpl in H;
  repeat (destruct H as [H | H]; [try discriminate H |]);
  try contradiction.

(** Find a line in a list of rendered lines. *)
Ltac in_lines := simpl; repeat (first [left; reflexivity | right]).

Section ReportFacts.

Variable fmt_g : R -> string.
Variable fmt_6g : pyfloat -> string.

Lemma in_report (s : string) (a b c d e : list string) :
  In s (a ++ b ++ c ++ d ++ e)%list <->
  In s a \/ In s b \/ In s c \/ In s d \/ In s e.
Proof.
  rewrite !in_app_iff. reflexivity.
Qed.

(** X15: on valid inputs the report carries the verdict of the mean gate:
    the line [Mean (expectation) gate: PASS (A <= C)] is printed exactly when
    [R * (p * tpr + (1 - p) * fpr) <= C], and the line with [FAIL (A > C)]
    exactly when it is not. *)
Theorem main_prints_mean_verdict (aR ap atpr afpr aC : R) (adelta : option R) :
  valid_rate_inputs aR ap atpr afpr aC -> valid_delta adelta ->
  returns (main fmt_g fmt_6g aR ap atpr afpr aC adelta)
    (fun lines =>
       (In "Mean (expectation) gate: PASS (A <= C)" lines <->
        aR * (ap * atpr + (1 - ap) * afpr) <= aC) /\
       (In "Mean (expectation) gate: FAIL (A > C)" lines <->
        aC < aR * (ap * atpr + (1 - ap) * afpr))).
Proof.
  intros Hv Hd.
  destruct (cap_roc_returns aR ap atpr afpr aC adelta Hv Hd) as (dout & E & _).
  unfold main. rewrite E, bind_Ok. eexists. split; [reflexivity |].
  rewrite !in_report.
  unfold report_head, report_mean_notes, report_capacity, report_delta,
    report_reminders.
  cbn [A passed_mean fpr_max_mean_raw tpr_max_mean_raw C_required delta_out].
  unfold alert_rate.
  destruct (Rleb (aR * (ap * atpr + (1 - ap) * afpr)) aC) eqn:EL;
    [apply Rleb_true in EL | apply Rleb_false in EL].
  - split; split.
    + intros _. exact EL.
    + intros _. left. in_lines.
    + intros [H | [H | [H | [H | H]]]]; case_lines H.
    + lra.
  - split; split.
    + intros [H | [H | [H | [H | H]]]]; case_lines H.
    + lra.
    + intros _. exact EL.
    + intros _. left. in_lines.
Qed.

(** X18: the section of the delta gate.  On valid inputs the line
    [Delta gate: disabled (no --delta provided)] is printed exactly when no
    [delta] was given; when one was, the verdict line says [PASS] exactly
    when [A] is at most the rate [lambda_max_poisson] returned, and [FAIL]
    exactly when [A] exceeds it. *)
Theorem main_prints_delta_verdict
  (aR ap atpr afpr aC : R) (adelta : option R) :
  valid_rate_inputs aR ap atpr afpr aC -> valid_delta adelta ->
  returns (main fmt_g fmt_6g aR ap atpr afpr aC adelta)
    (fun lines =>
       (In (nl ++ "Delta gate: disabled (no --delta provided)") lines <->
        adelta = None) /\
       (forall dl, adelta = Some dl ->
          exists lam,
            lambda_max_poisson dl (PyInt (py_round aC)) default_tol = Ok lam /\
            (In "Delta gate: PASS (A <= λ_max)" lines <->
             aR * (ap * atpr + (1 - ap) * afpr) <= lam) /\
            (In "Delta gate: FAIL (A > λ_max)" lines <->
             lam < aR * (ap * atpr + (1 - ap) * afpr)))).
Proof.
  intros Hv Hd.
  destruct (cap_roc_returns aR ap atpr afpr aC adelta Hv Hd)
    as (dout & E & Hdout).
  unfold main. rewrite E, bind_Ok. eexists. split; [reflexivity |].
  destruct adelta as [dl |].
  - destruct Hdout as (lam & q & El & _ & ->). split.
    + rewrite in_report.
      unfold report_head, report_mean_notes, report_capacity, report_delta,
        report_reminders.
      cbn [A passed_mean fpr_max_mean_raw tpr_max_mean_raw C_required
           delta_out delta C_int lam_max overload_prob_at_A passed_delta
           fpr_max_delta_raw].
      split; [| discriminate].
      intros [H | [H | [H | [H | H]]]]; case_lines H.
    + intros dl' Edl. injection Edl as <-. exists lam. split; [exact El |].
      rewrite !in_report.
      unfold report_head, report_mean_notes, report_capacity, report_delta,
        report_reminders.
      cbn [A passed_mean fpr_max_mean_raw tpr_max_mean_raw C_required
           delta_out delta C_int lam_max overload_prob_at_A passed_delta
           fpr_max_delta_raw].
      unfold alert_rate.
      destruct (Rleb (aR * (ap * atpr + (1 - ap) * afpr)) lam) eqn:EL;
        [apply Rleb_true in EL | apply Rleb_false in EL].
      * split; split.
        -- intros _. exact EL.
        -- intros _. do 3 right. left. in_lines.
        -- intros [H | [H | [H | [H | H]]]]; case_lines H.
        -- lra.
      * split; split.
        -- intros [H | [H | [H | [H | H]]]]; case_lines H.
        -- lra.
        -- intros _. exact EL.
        -- intros _. do 3 right. left. in_lines.
  - subst dout. split.
    + rewrite in_report. split; [reflexivity |].
      intros _. do 3 right. left. in_lines.
    + intros dl Edl. discriminate Edl.
Qed.

End ReportFacts.

(** The witnesses render every number as the empty string. *)
Definition no_g : R -> string := fun _ => EmptyString.
Definition no_6g : pyfloat -> string := fun _ => EmptyString.

Lemma main_prints_mean_verdict_witness :
  returns (main no_g no_6g 20 0.01 0.85 0.30 4 None)
    (fun lines =>
       (In "Mean (expectation) gate: PASS (A <= C)" lines <->
        20 * (0.01 * 0.85 + (1 - 0.01) * 0.30) <= 4) /\
       (In "Mean (expectation) gate: FAIL (A > C)" lines <->
        4 < 20 * (0.01 * 0.85 + (1 - 0.01) * 0.30))).
Proof.
  apply (main_prints_mean_verdict no_g no_6g 20 0.01 0.85 0.30 4 None).
  - unfold valid_rate_inputs. lra.
  - exact I.
Defined.

Lemma main_prints_delta_verdict_witness :
  returns (main no_g no_6g 20 0.01 0.85 0.07 4 (Some 0.01))
    (fun lines =>
       (In (nl ++ "Delta gate: disabled (no --delta provided)") lines <->
        Some 0.01 = None) /\
       (forall dl, Some 0.01 = Some dl ->
          exists lam,
            lambda_max_poisson dl (PyInt (py_round 4)) default_tol = Ok lam /\
            (In "Delta gate: PASS (A <= λ_max)" lines <->
             20 * (0.01 * 0.85 + (1 - 0.01) * 0.07) <= lam) /\
            (In "Delta gate: FAIL (A > λ_max)" lines <->
             lam < 20 * (0.01 * 0.85 + (1 - 0.01) * 0.07)))).
Proof.
  apply (main_prints_delta_verdict no_g no_6g 20 0.01 0.85 0.07 4 (Some 0.01)).
  - unfold valid_rate_inputs. lra.
  - simpl. lra.
Defined.


(** * The Poisson functions on binary64 floats

    Python's [float] is the IEEE 754 binary64 format, and so is the
    primitive type [float] used here: [+], [-], [*], [/] and the comparisons
    are the correctly rounded operations of the format.  [math.exp] belongs
    to the C library, not to the repository: it is the parameter [math_exp],
    and a theorem assumes of it only the values it names. *)

From Stdlib Require Import PrimFloat FloatOps SpecFloat.

Module Float64.

Local Open Scope float_scope.

(** The conversion of the loop index in [lam / i], for [0 <= i < 2^63]. *)
Definition float_of_int (i : Z) : float :=
  of_uint63 (Uint63Axioms.of_Z i).

Section WithExp.

Variable math_exp : float -> float.

(** The body of the loop of [poisson_cdf], on the pair [(term, total)]. *)
Definition cdf_step (lam : float) (st : float * float) (i : Z)
  : float * float :=
  let term := fst st * (lam / float_of_int i) in
  (term, snd st + term).

(** The sum [total] holds when the loop ends, before the clamp. *)
Definition cdf_total (k : Z) (lam : float) : float :=
  let term := math_exp (- lam) in
  let total := term in
  snd (fold_left (cdf_step lam) (range 1 (k + 1)) (term, total)).

Definition poisson_cdf (k : Z) (lam : float) : result float :=
  if (k <? 0)%Z then Ok 0
  else if lam <? 0 then Raise (ValueError "lam must be >= 0")
  else
    let total := cdf_total k lam in
    if total <? 0 then Ok 0
    else if 1 <? total then Ok 1
    else Ok total.

Definition poisson_overload_prob (lam : float) (C : Z) : result float :=
  c <- poisson_cdf C lam ;;
  Ok (1 - c).

End WithExp.

(** The functions look at [math_exp] at [- lam] only. *)
Lemma cdf_total_exp (math_exp : float -> float) (e : float)
  (k : Z) (lam : float) :
  math_exp (- lam) = e -> cdf_total math_exp k lam = cdf_total (fun _ => e) k lam.
Proof.
  intros H. unfold cdf_total. rewrite H. reflexivity.
Qed.

Lemma poisson_cdf_exp (math_exp : float -> float) (e : float)
  (k : Z) (lam : float) :
  math_exp (- lam) = e ->
  poisson_cdf math_exp k lam = poisson_cdf (fun _ => e) k lam.
Proof.
  intros H. unfold poisson_cdf. rewrite (cdf_total_exp math_exp e k lam H).
  reflexivity.
Qed.

Lemma poisson_overload_prob_exp (math_exp : float -> float) (e : float)
  (lam : float) (C : Z) :
  math_exp (- lam) = e ->
  poisson_overload_prob math_exp lam C =
  poisson_overload_prob (fun _ => e) lam C.
Proof.
  intros H. unfold poisson_overload_prob.
  rewrite (poisson_cdf_exp math_exp e C lam H). reflexivity.
Qed.

(** ** A computable exponential

    Argument reduction [x = k * ln 2 + r], the Taylor polynomial of degree 13
    in [r], and a scaling by [2^k].  It stands in for the C library where a
    concrete exponential is needed. *)

(** The integer a float holds, for a float that holds one. *)
Definition int_of_float (x : float) : Z :=
  match Prim2SF x with
  | S754_finite s m e =>
      let v := Z.shiftl (Z.pos m) e in
      if s then (- v)%Z else v
  | _ => 0%Z
  end.

Definition exp_approx (x : float) : float :=
  let kf := (x * 0x1.71547652b82fep+0 + 0x1.8p+52) - 0x1.8p+52 in
  let r := (x - kf * 0x1.62e42feep-1) - kf * 0x1.a39ef35793c76p-33 in
  let p :=
    1 + r * (1 + r / 2 * (1 + r / 3 * (1 + r / 4 * (1 + r / 5 *
       (1 + r / 6 * (1 + r / 7 * (1 + r / 8 * (1 + r / 9 *
       (1 + r / 10 * (1 + r / 11 * (1 + r / 12 * (1 + r / 13)))))))))))) in
  Z.ldexp p (int_of_float kf).

Example exp_approx_0 : exp_approx 0 = 1.
Proof. vm_compute. reflexivity. Qed.

Example exp_approx_minus_1 : exp_approx (-1) = 0x1.78b56362cef38p-2.
Proof. vm_compute. reflexivity. Qed.

(** ** Underflow of [math.exp]

    [e^(-750)] is about [1.8e-326], below half of the least positive float
    [2^(-1074)]: it rounds to [0.0].  [e^(-743)] is [4.22 * 2^(-1074)] and
    [e^(-744)] is [1.55 * 2^(-1074)]: the nearest floats are [4 * 2^(-1074)]
    and [2 * 2^(-1074)]. *)

Lemma reference_positive (k : Z) (lam : R) :
  (0 <= k)%Z -> (0 <= lam)%R -> (0 < poisson_cdf_reference k lam)%R.
Proof.
  intros Hk Hlam. unfold poisson_cdf_reference.
  rewrite <- (Z2Nat.id k Hk), reference_sum.
  pose proof (pmf_sum_unit lam (Z.to_nat k) Hlam) as H.
  rewrite clamp_id by lra. apply H.
Qed.

(** C3: the code departs from the reference.  With [math.exp(-750.0)]
    rounded to [0.0], [poisson_cdf(1000, 750.0)] starts from the term [0.0],
    every later term is [0.0 * (750.0 / i) = 0.0], and the call returns
    [0.0]; the reference sum of [e^(-750) * 750^i / i!] over [i = 0..1000]
    is strictly positive. *)
Theorem poisson_cdf_underflows (math_exp : float -> float) :
  math_exp (-750) = 0 ->
  poisson_cdf math_exp 1000 750 = Ok 0 /\
  (0 < poisson_cdf_reference 1000 750)%R.
Proof.
  intros H. split.
  - rewrite (poisson_cdf_exp math_exp 0 1000 750 H).
    vm_compute. reflexivity.
  - apply reference_positive; [lia | lra].
Qed.

Lemma poisson_cdf_underflows_witness :
  exp_approx (-750) = 0 /\
  poisson_cdf exp_approx 1000 750 = Ok 0 /\
  (0 < poisson_cdf_reference 1000 750)%R.
Proof.
  assert (H : exp_approx (-750) = 0) by (vm_compute; reflexivity).
  split; [exact H | exact (poisson_cdf_underflows exp_approx H)].
Defined.

(** C4: the overload probability of the code is not monotone.  With
    [math.exp(-743.0) = 4 * 2^(-1074)] and [math.exp(-744.0) = 2 * 2^(-1074)],
    at capacity [1000] the sum is [0.9476...] at [lam = 743.0] and [1.2879...]
    at [lam = 744.0], where the clamp cuts it to [1.0]: the overload
    probability is [0.0523...] at [743.0] and drops to [0.0] at [744.0]. *)
Theorem poisson_overload_prob_decreases (math_exp : float -> float) :
  math_exp (-743) = 0x1p-1072 ->
  math_exp (-744) = 0x1p-1073 ->
  cdf_total math_exp 1000 743 = 0x1.e531726baf90cp-1 /\
  cdf_total math_exp 1000 744 = 0x1.49b9121c9a00fp+0 /\
  poisson_overload_prob math_exp 743 1000 = Ok 0x1.ace8d94506f4p-5 /\
  poisson_overload_prob math_exp 744 1000 = Ok 0 /\
  (743 <? 744) = true /\
  (0 <? 0x1.ace8d94506f4p-5) = true.
Proof.
  intros H3 H4.
  rewrite (cdf_total_exp math_exp _ 1000 743 H3).
  rewrite (cdf_total_exp math_exp _ 1000 744 H4).
  rewrite (poisson_overload_prob_exp math_exp _ 743 1000 H3).
  rewrite (poisson_overload_prob_exp math_exp _ 744 1000 H4).
  repeat split; vm_compute; reflexivity.
Qed.

Lemma poisson_overload_prob_decreases_witness :
  exp_approx (-743) = 0x1p-1072 /\
  exp_approx (-744) = 0x1p-1073 /\
  poisson_overload_prob exp_approx 743 1000 = Ok 0x1.ace8d94506f4p-5 /\
  poisson_overload_prob exp_approx 744 1000 = Ok 0.
Proof.
  assert (H3 : exp_approx (-743) = 0x1p-1072) by (vm_compute; reflexivity).
  assert (H4 : exp_approx (-744) = 0x1p-1073) by (vm_compute; reflexivity).
  split; [exact H3 |]. split; [exact H4 |].
  destruct (poisson_overload_prob_decreases exp_approx H3 H4)
    as (_ & _ & E3 & E4 & _).
  split; assumption.
Defined.

End Float64.
